(** * A shallow embedding of the [backend] package

    The package is a reflection-based dependency injector ([injector.go]),
    a thin router over it ([router.go]) and permission assertions used by
    the JWT middleware ([jwt.go]).

    Go values held in an [interface{}] are modelled by [Value]; what
    [reflect.TypeOf] reports about them by [GoType]; Go functions by a code
    identifier whose body, taken from a [Program], transforms a heap and
    may panic.  The injector's two maps are finite maps keyed by
    [reflect.Type] (the nil [reflect.Type] included).  Calls are logged,
    so that what ran, and in which order, can be stated.

    Left out: variadic functions and named function types; bodies that
    call back into the injector (a body acts on the heap only). *)

From Stdlib Require Import ZArith.
From stdpp Require Import gmap strings list fin_maps countable.

Open Scope string_scope.
Open Scope list_scope.

(** ** Types, as [reflect.Type] describes them *)

Unset Elimination Schemes.
Inductive GoType : Type :=
| TNamed (name : string)             (* int, string, bool, named structs *)
| TPtr (elem : GoType)               (* *T *)
| TIface (name : string)             (* a named interface type *)
| TFunc (ins outs : list GoType).    (* func(ins...) (outs...), not variadic *)
Set Elimination Schemes.

Section GoType_nested_induction.
Variable P : GoType -> Prop.
Hypothesis HNamed : forall name, P (TNamed name).
Hypothesis HPtr : forall elem, P elem -> P (TPtr elem).
Hypothesis HIface : forall name, P (TIface name).
Hypothesis HFunc : forall ins outs,
  Forall P ins -> Forall P outs -> P (TFunc ins outs).

Fixpoint GoType_nested_ind (t : GoType) : P t :=
  match t with
  | TNamed name => HNamed name
  | TPtr elem => HPtr elem (GoType_nested_ind elem)
  | TIface name => HIface name
  | TFunc ins outs =>
      HFunc ins outs
        ((fix all (l : list GoType) : Forall P l :=
            match l with
            | [] => Forall_nil P
            | x :: l' => Forall_cons P x l' (GoType_nested_ind x) (all l')
            end) ins)
        ((fix all (l : list GoType) : Forall P l :=
            match l with
            | [] => Forall_nil P
            | x :: l' => Forall_cons P x l' (GoType_nested_ind x) (all l')
            end) outs)
  end.
End GoType_nested_induction.

(** [reflect.Type] values are canonical, so two of them are the same map
    key exactly when they describe the same type.  The maps below need the
    key type to be countable; types are coded as trees. *)

Fixpoint GoType_to_tree (t : GoType) : gen_tree string :=
  match t with
  | TNamed name => GenNode 0 [GenLeaf name]
  | TPtr elem => GenNode 1 [GoType_to_tree elem]
  | TIface name => GenNode 2 [GenLeaf name]
  | TFunc ins outs =>
      GenNode 3 [GenNode 0 (map GoType_to_tree ins);
                 GenNode 0 (map GoType_to_tree outs)]
  end.

Fixpoint sequence_opt {A} (l : list (option A)) : option (list A) :=
  match l with
  | [] => Some []
  | Some x :: l' =>
      match sequence_opt l' with Some xs => Some (x :: xs) | None => None end
  | None :: _ => None
  end.

Fixpoint GoType_of_tree (g : gen_tree string) : option GoType :=
  match g with
  | GenNode 0 [GenLeaf name] => Some (TNamed name)
  | GenNode 1 [e] =>
      match GoType_of_tree e with Some t => Some (TPtr t) | None => None end
  | GenNode 2 [GenLeaf name] => Some (TIface name)
  | GenNode 3 [GenNode 0 gi; GenNode 0 go] =>
      match sequence_opt (map GoType_of_tree gi),
            sequence_opt (map GoType_of_tree go) with
      | Some ins, Some outs => Some (TFunc ins outs)
      | _, _ => None
      end
  | _ => None
  end.

Lemma sequence_opt_trees (l : list GoType) :
  Forall (fun t => GoType_of_tree (GoType_to_tree t) = Some t) l ->
  sequence_opt (map GoType_of_tree (map GoType_to_tree l)) = Some l.
Proof.
  induction 1 as [|t l Ht _ IH]; simpl; [reflexivity|].
  rewrite Ht, IH. reflexivity.
Qed.

Lemma GoType_of_to_tree (t : GoType) :
  GoType_of_tree (GoType_to_tree t) = Some t.
Proof.
  induction t as [name|elem IH|name|ins outs Hi Ho]
    using GoType_nested_ind; simpl.
  - reflexivity.
  - rewrite IH. reflexivity.
  - reflexivity.
  - rewrite (sequence_opt_trees _ Hi), (sequence_opt_trees _ Ho). reflexivity.
Qed.

Lemma GoType_to_tree_inj (t u : GoType) :
  GoType_to_tree t = GoType_to_tree u -> t = u.
Proof.
  intros H. apply (f_equal GoType_of_tree) in H.
  rewrite !GoType_of_to_tree in H. congruence.
Qed.

#[global] Instance GoType_eq_dec : EqDecision GoType.
Proof.
  intros t u. destruct (decide (GoType_to_tree t = GoType_to_tree u)) as [H|H].
  - left. apply GoType_to_tree_inj, H.
  - right. intros ->. apply H. reflexivity.
Defined.

#[global] Instance GoType_countable : Countable GoType :=
  inj_countable GoType_to_tree GoType_of_tree GoType_of_to_tree.

(** [reflect.Kind], as far as the package distinguishes kinds. *)
Inductive Kind : Type := Func | Ptr | Interface | Other.

#[global] Instance Kind_eq_dec : EqDecision Kind.
Proof. solve_decision. Defined.

Definition kind (t : GoType) : Kind :=
  match t with
  | TNamed _ => Other
  | TPtr _ => Ptr
  | TIface _ => Interface
  | TFunc _ _ => Func
  end.

(** [t.NumIn()], [t.In(j)] and [t.Out(j)]; [None] is the panic of
    [reflect] on a type that is not a function or on an index out of
    range. *)
Definition NumIn (t : GoType) : option nat :=
  match t with TFunc ins _ => Some (length ins) | _ => None end.

Definition In (t : GoType) (j : nat) : option GoType :=
  match t with TFunc ins _ => ins !! j | _ => None end.

Definition Out (t : GoType) (j : nat) : option GoType :=
  match t with TFunc _ outs => outs !! j | _ => None end.

(** ** Errors ([error.go]) *)

Definition Error : Type := string.

Definition ErrTypeAlreadyRegistered : Error := "type already registered".
Definition ErrTypeNotRegistered : Error := "type not registered".
Definition ErrInvalidFactory : Error := "invalid factory".
Definition ErrNotInvokable : Error := "not invokable".

(** ** Values held in an [interface{}] *)

Definition FuncId : Type := nat.
Definition Addr : Type := nat.

Unset Elimination Schemes.
Inductive Value : Type :=
| VNil                                        (* the nil interface *)
| VInt (n : Z)
| VStr (s : string)
| VBool (b : bool)
| VErr (e : Error)                            (* a backend.Error *)
| VStruct (name : string) (fields : list Value)
| VPtr (elem : GoType) (a : option Addr)      (* None: a nil *T *)
| VFunc (ins outs : list GoType) (code : option FuncId). (* None: a nil func *)
Set Elimination Schemes.

(** [reflect.TypeOf]: the dynamic type, [None] for the nil interface. *)
Definition TypeOf (v : Value) : option GoType :=
  match v with
  | VNil => None
  | VInt _ => Some (TNamed "int")
  | VStr _ => Some (TNamed "string")
  | VBool _ => Some (TNamed "bool")
  | VErr _ => Some (TNamed "backend.Error")
  | VStruct name _ => Some (TNamed name)
  | VPtr elem _ => Some (TPtr elem)
  | VFunc ins outs _ => Some (TFunc ins outs)
  end.

(** ** Outcomes: a Go call returns or panics *)

Inductive Outcome (A : Type) : Type :=
| Ret (a : A)
| Panic (msg : string).
Arguments Ret {A} a.
Arguments Panic {A} msg.

(** ** The program around the injector

    The heap is a list of cells addressed by position.  A function body
    gets its arguments (the receiver first, for a method) and the heap. *)

Abbreviation Heap := (list Value).
Definition Sig : Type := (list GoType * list GoType)%type.

Record Program : Type := {
  body : FuncId -> list Value -> Heap -> Outcome (list Value) * Heap;
  (* the method set of a dynamic type *)
  method : GoType -> string -> option (Sig * FuncId);
  (* the methods a named interface asks for *)
  iface : string -> list (string * Sig);
}.

Definition TError : GoType := TIface "error".

(** [io.Closer] is [interface { Close() error }]. *)
Definition iface_methods (P : Program) (name : string) : list (string * Sig) :=
  if decide (name = "io.Closer") then [("Close", ([], [TError]))]
  else iface P name.

Definition has_method (P : Program) (t : GoType) (m : string * Sig) : bool :=
  match method P t (fst m) with
  | Some (sg, _) => bool_decide (sg = snd m)
  | None => false
  end.

Definition implements (P : Program) (t : GoType) (name : string) : bool :=
  forallb (has_method P t) (iface_methods P name).

(** Whether a value of dynamic type [t] may be passed for a parameter of
    type [p]: the two are identical, or [p] is an interface [t] implements. *)
Definition assignable (P : Program) (t p : GoType) : bool :=
  bool_decide (t = p) ||
  match p with TIface name => implements P t name | _ => false end.

(** ** Machine state: the heap and a log of what ran *)

Inductive Releaser : Type :=
| NilReleaser                  (* the nil func returned beside an error *)
| NoopReleaser                 (* func() {} *)
| CloseReleaser (i : Value).   (* func() { i.(io.Closer).Close() } *)

(** Where a body is entered from: the factory call of [GetInstance], the
    call of the target function in [Invoke], the [Close] of a releaser. *)
Inductive Site : Type := AtFactory | AtTarget | AtClose.

Inductive Event : Type :=
| EvCall (site : Site) (code : FuncId) (args : list Value)
                                               (* a body was entered *)
| EvRelease (r : Releaser).                    (* a releaser was called *)

Record State : Type := { heap : Heap; trace : list Event }.

Definition M (A : Type) : Type := State -> Outcome A * State.

Definition ret {A} (a : A) : M A := fun st => (Ret a, st).
Definition panic {A} (msg : string) : M A := fun st => (Panic msg, st).
Definition bind {A B} (m : M A) (k : A -> M B) : M B :=
  fun st =>
    match m st with
    | (Ret a, st') => k a st'
    | (Panic msg, st') => (Panic msg, st')
    end.

Notation "x <- m ;; k" := (bind m (fun x => k))
  (at level 100, m at next level, right associativity).

Definition log (e : Event) (st : State) : State :=
  {| heap := heap st; trace := trace st ++ [e] |}.

(** Entering the body of [code] with [args]. *)
Definition enter (P : Program) (site : Site) (code : FuncId)
    (args : list Value) : M (list Value) :=
  fun st =>
    let st1 := log (EvCall site code args) st in
    let '(o, h) := body P code args (heap st1) in
    (o, {| heap := h; trace := trace st1 |}).

(** ** The injector ([injector.go]) *)

Record Injector : Type := {
  singletons : gmap (option GoType) Value;
  transients : gmap (option GoType) Value;
}.

Definition NewInjector : Injector :=
  {| singletons := ∅; transients := ∅ |}.

Definition typeIsRegistered (i : Injector) (t : option GoType) : bool :=
  let singleton := bool_decide (is_Some (singletons i !! t)) in
  let transient := bool_decide (is_Some (transients i !! t)) in
  singleton || transient.

(** [AddSingleton] cannot panic: [reflect.TypeOf] accepts the nil
    interface and answers the nil type, which is a map key like any other.
    The result is the returned error and the injector afterwards. *)
Definition AddSingleton (i : Injector) (instance : Value)
  : option Error * Injector :=
  let t := TypeOf instance in
  if typeIsRegistered i t then (Some ErrTypeAlreadyRegistered, i)
  else (None, {| singletons := <[t := instance]> (singletons i);
                 transients := transients i |}).

(** [AddTransient] panics where the source does: [f.Kind()] on the nil
    type of a nil argument, and [f.Out(0)] on a function type without
    results. *)
Definition AddTransient (i : Injector) (factory : Value)
  : Outcome (option Error) * Injector :=
  match TypeOf factory with
  | None => (Panic "invalid memory address or nil pointer dereference", i)
  | Some f =>
      if negb (bool_decide (kind f = Func)) then (Ret (Some ErrInvalidFactory), i)
      else
        match Out f 0 with
        | None => (Panic "reflect: Func index out of bounds", i)
        | Some t =>
            if typeIsRegistered i (Some t)
            then (Ret (Some ErrTypeAlreadyRegistered), i)
            else (Ret None,
                  {| singletons := singletons i;
                     transients := <[Some t := factory]> (transients i) |})
        end
  end.

Section Resolution.
Variable P : Program.

(** An argument handed to [Call]: [reflect.ValueOf(nil)] is the zero
    [reflect.Value], which [Call] refuses. *)
Definition arg_ok (v : Value) (p : GoType) : bool :=
  match TypeOf v with
  | Some t => assignable P t p
  | None => false
  end.

Fixpoint args_ok (vs : list Value) (ps : list GoType) : bool :=
  match vs, ps with
  | [], [] => true
  | v :: vs', p :: ps' => arg_ok v p && args_ok vs' ps'
  | _, _ => false
  end.

(** [reflect.ValueOf(fn).Call(args)] for a function that is not
    variadic, the only kind of function a [VFunc] stands for: the
    argument count and every argument's type are checked (a mismatch
    panics), then the body runs.  For a variadic function [reflect]
    instead packs the arguments past the fixed parameters into the last
    one; no value of this model is such a function. *)
Definition Call (site : Site) (fn : Value) (args : list Value)
  : M (list Value) :=
  match fn with
  | VFunc ins outs (Some code) =>
      if negb (bool_decide (length args = length ins))
      then panic "reflect: Call with wrong number of input arguments"
      else if negb (args_ok args ins)
      then panic "reflect: Call using value of wrong type"
      else enter P site code args
  | VFunc _ _ None => panic "reflect: call of nil function"
  | _ => panic "reflect: call of non-function"
  end.

(** [i.(io.Closer)]: the [Close() error] method of the dynamic type. *)
Definition as_Closer (i : Value) : option FuncId :=
  match TypeOf i with
  | Some t =>
      match method P t "Close" with
      | Some (sg, code) =>
          if bool_decide (sg = ([], [TError])) then Some code else None
      | None => None
      end
  | None => None
  end.

Definition GetInstance (i : Injector) (t : option GoType)
  : M (Value * Releaser * option Error) :=
  match singletons i !! t with
  | Some instance => ret (instance, NoopReleaser, None)
  | None =>
      match transients i !! t with
      | Some factory =>
          values <- Call AtFactory factory [] ;;
          match values with
          | [] => panic "index out of range [0] with length 0"
          | i0 :: _ =>
              match as_Closer i0 with
              | Some _ => ret (i0, CloseReleaser i0, None)
              | None => ret (i0, NoopReleaser, None)
              end
          end
      | None => ret (VNil, NilReleaser, Some ErrTypeNotRegistered)
      end
  end.

(** Calling a releaser.  The result of [Close] is dropped. *)
Definition call_releaser (r : Releaser) : M unit :=
  fun st =>
    let st1 := log (EvRelease r) st in
    match r with
    | NilReleaser =>
        panic "invalid memory address or nil pointer dereference" st1
    | NoopReleaser => ret tt st1
    | CloseReleaser i =>
        match as_Closer i with
        | Some code => (_ <- enter P AtClose code [i] ;; ret tt) st1
        | None => panic "interface conversion: not an io.Closer" st1
        end
    end.

(** Deferred calls run when the function returns or panics, last
    deferred first; a panic in one of them replaces the outcome and the
    others still run. *)
Fixpoint run_defers {A} (defers : list Releaser) (o : Outcome A) : M A :=
  match defers with
  | [] => fun st => (o, st)
  | r :: defers' =>
      fun st =>
        match call_releaser r st with
        | (Ret _, st') => run_defers defers' o st'
        | (Panic msg, st') => run_defers defers' (Panic msg) st'
        end
  end.

(** The loop of [Invoke] over the parameters that are left, [ts] being
    [f.In(j)] for [j] from [len(args)] up.  [values] grows at its end,
    [defers] is the stack of deferred releasers, newest first.  [inl err]
    is the early [return nil, err]. *)
Fixpoint inject (i : Injector) (ts : list GoType)
    (values : list Value) (defers : list Releaser) (st : State)
  : Outcome (Error + list Value) * list Releaser * State :=
  match ts with
  | [] => (Ret (inr values), defers, st)
  | t :: ts' =>
      match GetInstance i (Some t) st with
      | (Panic msg, st') => (Panic msg, defers, st')
      | (Ret (_, _, Some err), st') => (Ret (inl err), defers, st')
      | (Ret (instance, releaser, None), st') =>
          inject i ts' (values ++ [instance]) (releaser :: defers) st'
      end
  end.

Definition Invoke (i : Injector) (fn : Value) (args : list Value)
  : M (list Value * option Error) :=
  match TypeOf fn with
  | None => panic "invalid memory address or nil pointer dereference"
  | Some f =>
      if negb (bool_decide (kind f = Func)) then ret ([], Some ErrNotInvokable)
      else
        fun st =>
          (* Collect the initial arguments, then the remaining ones. *)
          let values := args in
          let ts := match f with TFunc ins _ => drop (length args) ins
                             | _ => [] end in
          match inject i ts values [] st with
          | (Panic msg, defers, st1) => run_defers defers (Panic msg) st1
          | (Ret (inl err), defers, st1) =>
              run_defers defers (Ret ([], Some err)) st1
          | (Ret (inr values'), defers, st1) =>
              (* Call the function and collect the results. *)
              match Call AtTarget fn values' st1 with
              | (Ret results, st2) => run_defers defers (Ret (results, None)) st2
              | (Panic msg, st2) => run_defers defers (Panic msg) st2
              end
          end
  end.
End Resolution.

(** ** The router ([router.go]) *)

Definition TEngine : GoType := TPtr (TNamed "gin.Engine").

Record Router : Type := { g : Value; di : Injector }.

(** [NewRouter]: the releaser returned by [GetInstance] is dropped, and
    the type assertion on [g] panics unless its dynamic type is the
    pointer type [TEngine]. *)
Definition NewRouter (P : Program) (di : Injector)
  : M (option Router * option Error) :=
  r <- GetInstance P di (Some TEngine) ;;
  match r with
  | (_, _, Some err) => ret (None, Some err)
  | (g, _, None) =>
      if bool_decide (TypeOf g = Some TEngine)
      then ret (Some {| g := g; di := di |}, None)
      else panic "interface conversion: interface {} is not *gin.Engine"
  end.

(** ** Permission assertions ([jwt.go]) *)

Module Permissions.

(** [map[string]bool]; reading a missing key gives [false]. *)
Definition Token : Type := gmap string bool.

Definition PermissionsAssertion : Type := Token -> bool.

Definition index (token : Token) (p : string) : bool :=
  default false (token !! p).

Fixpoint HasAny (permissions : list string) : PermissionsAssertion :=
  fun token =>
    match permissions with
    | [] => false
    | p :: rest => if index token p then true else HasAny rest token
    end.

Fixpoint HasAll (permissions : list string) : PermissionsAssertion :=
  fun token =>
    match permissions with
    | [] => true
    | p :: rest => if negb (index token p) then false else HasAll rest token
    end.

Fixpoint Or (assertions : list PermissionsAssertion) : PermissionsAssertion :=
  fun token =>
    match assertions with
    | [] => false
    | a :: rest => if a token then true else Or rest token
    end.

Fixpoint And (assertions : list PermissionsAssertion) : PermissionsAssertion :=
  fun token =>
    match assertions with
    | [] => true
    | a :: rest => if negb (a token) then false else And rest token
    end.

End Permissions.

(** ** Sequences of registrations *)

Inductive Registration : Type :=
| Singleton (instance : Value)     (* AddSingleton(instance) *)
| Transient (factory : Value).     (* AddTransient(factory) *)

Definition register (i : Injector) (r : Registration)
  : Outcome (option Error) * Injector :=
  match r with
  | Singleton instance =>
      let '(err, i') := AddSingleton i instance in (Ret err, i')
  | Transient factory => AddTransient i factory
  end.

(** The injector after a sequence of registrations, whatever each one
    answered. *)
Definition register_all (rs : list Registration) (i : Injector) : Injector :=
  fold_left (fun i r => snd (register i r)) rs i.

(** The type identifier a registration is for: the dynamic type of a
    singleton, the first declared result of a factory.  [None] where
    [AddTransient] does not get as far as the registry. *)
Definition provided_type (r : Registration) : option (option GoType) :=
  match r with
  | Singleton instance => Some (TypeOf instance)
  | Transient factory =>
      match TypeOf factory with
      | Some (TFunc _ (t :: _)) => Some (Some t)
      | _ => None
      end
  end.

(** The provider the registry holds for a type, in the order
    [GetInstance] looks. *)
Definition provider (i : Injector) (t : option GoType) : option Registration :=
  match singletons i !! t with
  | Some instance => Some (Singleton instance)
  | None =>
      match transients i !! t with
      | Some factory => Some (Transient factory)
      | None => None
      end
  end.

(** ** What the properties are stated with *)

Definition for_type (t : option GoType) (r : Registration) : bool :=
  bool_decide (provided_type r = Some t).

(** The first registration of a sequence that is for [t]. *)
Fixpoint first_registration (t : option GoType) (rs : list Registration)
  : option Registration :=
  match rs with
  | [] => None
  | r :: rs' => if for_type t r then Some r else first_registration t rs'
  end.

(** A type never has a singleton and a transient at once. *)
Definition disjoint_providers (i : Injector) : Prop :=
  forall u, ~ (is_Some (singletons i !! u) /\ is_Some (transients i !! u)).

(** What a call of releaser [r] adds to the log. *)
Definition release_events (P : Program) (r : Releaser) : list Event :=
  EvRelease r ::
  match r with
  | CloseReleaser i =>
      match as_Closer P i with
      | Some code => [EvCall AtClose code [i]]
      | None => []
      end
  | _ => []
  end.

(** The heap after the releasers [defers] have been called in that
    order: a [CloseReleaser] runs the [Close] body of its instance, with
    the instance as receiver; the other releasers leave the heap alone. *)
Fixpoint closed_heap (P : Program) (defers : list Releaser) (h : Heap) : Heap :=
  match defers with
  | [] => h
  | r :: defers' =>
      closed_heap P defers'
        match r with
        | CloseReleaser i =>
            match as_Closer P i with
            | Some close => snd (body P close [i] h)
            | None => h
            end
        | _ => h
        end
  end.

Definition is_target_call (e : Event) : Prop :=
  match e with EvCall AtTarget _ _ => True | _ => False end.

Definition is_release (e : Event) : Prop :=
  match e with EvRelease _ => True | _ => False end.

Definition is_factory_call (e : Event) : Prop :=
  match e with EvCall AtFactory _ [] => True | _ => False end.

(** [resolves P i ts st rs st']: from [st], [GetInstance] succeeds on the
    types [ts] one after the other, giving the instances and releasers
    [rs] in that order and ending in [st']. *)
Inductive resolves (P : Program) (i : Injector)
  : list GoType -> State -> list (Value * Releaser) -> State -> Prop :=
| resolves_nil st : resolves P i [] st [] st
| resolves_cons t ts st instance releaser st1 rs st2 :
    GetInstance P i (Some t) st = (Ret (instance, releaser, None), st1) ->
    resolves P i ts st1 rs st2 ->
    resolves P i (t :: ts) st ((instance, releaser) :: rs) st2.

(** A factory that makes a new object at each call: it returns a pointer
    to a cell it has just added to the heap, holding [cell]. *)
Definition allocates (P : Program) (code : FuncId) (elem : GoType)
    (cell : Value) : Prop :=
  forall h, body P code [] h = (Ret [VPtr elem (Some (length h))], h ++ [cell]).

(** ** The programs of the tests ([injector_test.go], [router_test.go]) *)

Module Tests.

Definition TInt : GoType := TNamed "int".
Definition TString : GoType := TNamed "string".
Definition TSimple : GoType := TNamed "simpleObject".
Definition TClosable : GoType := TNamed "closableObject".

Definition simple : Value := VStruct "simpleObject" [VStr "test"; VInt 42].

(** Code identifiers. *)
Definition c_simple_factory : FuncId := 1.  (* func() *simpleObject *)
Definition c_closable_factory : FuncId := 2. (* func() *closableObject *)
Definition c_Close : FuncId := 3.           (* Close of closableObject *)
Definition c_add : FuncId := 4.             (* func(a, b int) int *)
Definition c_value : FuncId := 5.           (* func(o simpleObject) int *)
Definition c_nop : FuncId := 7.             (* a function with an empty body *)
Definition c_engine_factory : FuncId := 8.  (* func() *gin.Engine *)
Definition c_failing_Close : FuncId := 9.   (* a Close that returns an error *)
Definition c_failing_factory : FuncId := 10. (* func() *failingCloser *)

(** The cell the [closed] flag of the test lives in. *)
Definition closed_cell : Addr := 0.

Definition test_body (code : FuncId) (args : list Value) (h : Heap)
  : Outcome (list Value) * Heap :=
  match code, args with
  | 1, [] => (Ret [VPtr TSimple (Some (length h))], h ++ [simple])
  | 2, [] =>
      (Ret [VPtr TClosable (Some (length h))],
       h ++ [VStruct "closableObject" [VPtr (TNamed "bool") (Some closed_cell)]])
  | 3, [VPtr _ (Some a)] =>
      match h !! a with
      | Some (VStruct _ [VPtr _ (Some c)]) => (Ret [VNil], <[c := VBool true]> h)
      | _ => (Panic "invalid memory address or nil pointer dereference", h)
      end
  | 4, [VInt a; VInt b] => (Ret [VInt (a + b)], h)
  | 5, [VStruct _ [_; VInt v]] => (Ret [VInt v], h)
  | 6, [VInt a; VStruct _ [_; VInt v]] => (Ret [VInt (a + v)], h)
  | 7, _ => (Ret [], h)
  | 8, [] => (Ret [VPtr (TNamed "gin.Engine") (Some (length h))],
              h ++ [VStruct "gin.Engine" []])
  | 9, _ => (Ret [VErr "close failed"], h)
  | 10, [] => (Ret [VPtr (TNamed "failingCloser") (Some (length h))],
               h ++ [VStruct "failingCloser" []])
  | _, _ => (Panic "unreachable", h)
  end.

Definition test_method (t : GoType) (name : string) : option (Sig * FuncId) :=
  if bool_decide (t = TPtr TClosable /\ name = "Close")
  then Some (([], [TError]), c_Close)
  else if bool_decide (t = TPtr (TNamed "failingCloser") /\ name = "Close")
  then Some (([], [TError]), c_failing_Close)
  else None.

Definition test_program : Program :=
  {| body := test_body; method := test_method; iface := fun _ => [] |}.

(** [closed := false] before anything runs. *)
Definition st0 : State := {| heap := [VBool false]; trace := [] |}.

Definition simple_factory : Value := VFunc [] [TPtr TSimple] (Some c_simple_factory).
Definition closable_factory : Value :=
  VFunc [] [TPtr TClosable] (Some c_closable_factory).
Definition failing_factory : Value :=
  VFunc [] [TPtr (TNamed "failingCloser")] (Some c_failing_factory).
Definition add : Value := VFunc [TInt; TInt] [TInt] (Some c_add).
Definition value_of : Value := VFunc [TSimple] [TInt] (Some c_value).

End Tests.

(** ** The handlers the router gives the engine ([router.go]) *)

(** The closure of every verb method,
    [func(c *gin.Context) { r.di.Invoke(handler, c) }]: the context is the
    one leading argument, and what [Invoke] returns, results and error, is
    dropped. *)
Definition adapter (P : Program) (r : Router) (handler : Value) (c : Value)
  : M unit :=
  _ <- Invoke P (di r) handler [c] ;; ret tt.

(** What a verb method asks of the engine: the method it registers for,
    the path, and the closure to run on a request. *)
Record Route : Type := {
  verb : string;
  path : string;
  serve : Value -> M unit;
}.

Definition GET (P : Program) (r : Router) (path : string) (handler : Value)
  : Route :=
  {| verb := "GET"; path := path; serve := adapter P r handler |}.

Definition POST (P : Program) (r : Router) (path : string) (handler : Value)
  : Route :=
  {| verb := "POST"; path := path; serve := adapter P r handler |}.

Definition PUT (P : Program) (r : Router) (path : string) (handler : Value)
  : Route :=
  {| verb := "PUT"; path := path; serve := adapter P r handler |}.

Definition DELETE (P : Program) (r : Router) (path : string) (handler : Value)
  : Route :=
  {| verb := "DELETE"; path := path; serve := adapter P r handler |}.

Definition PATCH (P : Program) (r : Router) (path : string) (handler : Value)
  : Route :=
  {| verb := "PATCH"; path := path; serve := adapter P r handler |}.

Definition OPTIONS (P : Program) (r : Router) (path : string) (handler : Value)
  : Route :=
  {| verb := "OPTIONS"; path := path; serve := adapter P r handler |}.

Definition HEAD (P : Program) (r : Router) (path : string) (handler : Value)
  : Route :=
  {| verb := "HEAD"; path := path; serve := adapter P r handler |}.

(** The seven verb methods of the router. *)
Definition verb_methods
  : list (Program -> Router -> string -> Value -> Route) :=
  [GET; POST; PUT; DELETE; PATCH; OPTIONS; HEAD].

(** ** The middleware ([jwt.go])

    A handler acts on the request's [gin.Context]: it reads a request
    header, reads and writes the context's keys, writes a JSON response,
    aborts, or hands over to the rest of the chain with [c.Next()].  The
    rest of the chain is the argument [next] of a handler here.  The JWT
    library is taken as given: [jwt_Parse] and [Token_Get] below. *)

Section Middleware.
Variable JwtToken : Type.

(** [jwt.Parse] of the bearer with the options the middleware passes (the
    issuer, the audience, the HS256 key made of the secret, validation and
    verification on); [None] is its error. *)
Variable jwt_Parse : string -> string -> string -> string -> option JwtToken.

(** [token.Get(claim, &permissions)] into a [[]string]; [None] is its
    error. *)
Variable Token_Get : JwtToken -> string -> option (list string).

(** What a context key may hold: a [jwt.Token], or anything else. *)
Inductive Any : Type :=
| AnyToken (token : JwtToken)
| AnyOther (v : Value).

Record Context : Type := {
  Header : gmap string string;               (* the request's headers *)
  Keys : gmap string Any;                    (* c.Set / c.Get *)
  aborted : bool;                            (* c.Abort was called *)
  written : list (Z * list (string * string)); (* the c.JSON calls *)
}.

Definition Handler : Type := Context -> Outcome unit * Context.

(** [c.GetHeader(key)]: the empty string when the header is missing. *)
Definition GetHeader (c : Context) (key : string) : string :=
  default "" (Header c !! key).

Definition Context_Set (key : string) (v : Any) (c : Context) : Context :=
  {| Header := Header c; Keys := <[key := v]> (Keys c);
     aborted := aborted c; written := written c |}.

Definition JSON (code : Z) (obj : list (string * string)) (c : Context)
  : Context :=
  {| Header := Header c; Keys := Keys c;
     aborted := aborted c; written := written c ++ [(code, obj)] |}.

Definition Abort (c : Context) : Context :=
  {| Header := Header c; Keys := Keys c;
     aborted := true; written := written c |}.

Definition JWT (issuer audience secret : string) (next : Handler) : Handler :=
  fun c =>
    let bearer := GetHeader c "Authorization" in
    if bool_decide (bearer = "") then next c
    else
      match jwt_Parse bearer issuer audience secret with
      | None => (Ret tt, Abort (JSON 401 [("error", "invalid token")] c))
      | Some token => next (Context_Set "token" (AnyToken token) c)
      end.

(** The map the middleware builds from the claim:
    [for _, p := range permissions { tokenPermissions[p] = true }]. *)
Definition tokenPermissions (permissions : list string) : Permissions.Token :=
  fold_left (fun m p => <[p := true]> m) permissions ∅.

(** The type assertion on what [c.Get("token")] gives panics when there
    is no such key and when the key holds something else. *)
Definition RequirePermissionsClaim (claim : string)
    (assertion : Permissions.PermissionsAssertion) (next : Handler) : Handler :=
  fun c =>
    match Keys c !! "token" with
    | Some (AnyToken token) =>
        match Token_Get token claim with
        | None => (Ret tt, Abort (JSON 401 [("error", "invalid token")] c))
        | Some permissions =>
            if negb (assertion (tokenPermissions permissions))
            then (Ret tt, Abort (JSON 403 [("error", "forbidden")] c))
            else next c
        end
    | Some (AnyOther _) =>
        (Panic "interface conversion: interface {} is not jwt.Token", c)
    | None =>
        (Panic "interface conversion: interface is nil, not jwt.Token", c)
    end.

Definition RequirePermissions (assertion : Permissions.PermissionsAssertion)
    (next : Handler) : Handler :=
  RequirePermissionsClaim "permissions" assertion next.

(** [Token(c)]. *)
Definition Token (c : Context) : Outcome JwtToken :=
  match Keys c !! "token" with
  | Some (AnyToken token) => Ret token
  | Some (AnyOther _) =>
      Panic "interface conversion: interface {} is not jwt.Token"
  | None => Panic "interface conversion: interface is nil, not jwt.Token"
  end.
End Middleware.

Arguments AnyToken {JwtToken} token.
Arguments AnyOther {JwtToken} v.
Arguments Header {JwtToken} c.
Arguments Keys {JwtToken} c.
Arguments aborted {JwtToken} c.
Arguments written {JwtToken} c.
Arguments GetHeader {JwtToken} c key.
Arguments Context_Set {JwtToken} key v c.
Arguments JSON {JwtToken} code obj c.
Arguments Abort {JwtToken} c.
Arguments JWT {JwtToken} jwt_Parse issuer audience secret next c.
Arguments RequirePermissionsClaim {JwtToken} Token_Get claim assertion next c.
Arguments RequirePermissions {JwtToken} Token_Get assertion next c.
Arguments Token {JwtToken} c.

(** ** What the further properties are stated with *)

(** An assertion that granting more never turns from true to false. *)
Definition monotone (a : Permissions.PermissionsAssertion) : Prop :=
  forall token token' : Permissions.Token,
    (forall p, token !! p = Some true -> token' !! p = Some true) ->
    a token = true -> a token' = true.

(** [GetInstance] on [t] from [st] does not give an instance: it fails
    or panics. *)
Definition unresolved (P : Program) (i : Injector) (t : GoType) (st : State)
  : Prop :=
  forall instance releaser st',
    GetInstance P i (Some t) st <> (Ret (instance, releaser, None), st').

(** Nothing is left to resolve, or the next type does not resolve. *)
Definition stops_at (P : Program) (i : Injector) (rest : list GoType)
    (st : State) : Prop :=
  match rest with
  | [] => True
  | t :: _ => unresolved P i t st
  end.

Definition is_factory_or_close (e : Event) : Prop :=
  match e with
  | EvCall AtFactory _ _ | EvCall AtClose _ _ => True
  | _ => False
  end.

(** ** Further examples *)

Module Examples.

Definition c_panics : FuncId := 99.   (* a function whose body panics *)

(** A token is the list of its permissions; only the bearer ["good"]
    parses; only the claim ["permissions"] is there. *)
Definition ex_Parse (bearer issuer audience secret : string)
  : option (list string) :=
  if bool_decide (bearer = "good") then Some ["read"; "write"] else None.

Definition ex_Get (token : list string) (claim : string)
  : option (list string) :=
  if bool_decide (claim = "permissions") then Some token else None.

Definition request (authorization : option string) : Context (list string) :=
  {| Header := match authorization with
               | Some v => {["Authorization" := v]}
               | None => ∅
               end;
     Keys := ∅; aborted := false; written := [] |}.

(** The last handler of a chain: it answers 200. *)
Definition ok : Handler (list string) :=
  fun c => (Ret tt, JSON 200 [] c).

Definition TContext : GoType := TPtr (TNamed "gin.Context").
Definition context : Value := VPtr (TNamed "gin.Context") (Some 0).

End Examples.

(** * Properties *)

(** ** The registry *)

Lemma typeIsRegistered_provider (i : Injector) (t : option GoType) :
  typeIsRegistered i t = bool_decide (is_Some (provider i t)).
Proof.
  unfold typeIsRegistered, provider.
  destruct (singletons i !! t) as [v|], (transients i !! t) as [f|]; simpl;
    repeat case_bool_decide; try reflexivity;
    match goal with
    | H : ¬ is_Some (Some _) |- _ => exfalso; apply H; eexists; reflexivity
    | H : is_Some None |- _ => destruct H; discriminate
    end.
Qed.

Lemma typeIsRegistered_false (i : Injector) (t : option GoType) :
  typeIsRegistered i t = false <->
  singletons i !! t = None /\ transients i !! t = None.
Proof.
  unfold typeIsRegistered.
  destruct (singletons i !! t) as [v|], (transients i !! t) as [f|]; simpl;
    repeat case_bool_decide; split; intros H;
    try reflexivity; try discriminate; try (destruct H; discriminate);
    try (split; reflexivity);
    match goal with
    | H : ¬ is_Some (Some _) |- _ => exfalso; apply H; eexists; reflexivity
    | H : is_Some None |- _ => destruct H; discriminate
    end.
Qed.


(** The two branches of [GetInstance] that run no code. *)
Lemma GetInstance_stored (P : Program) (i : Injector) (t : option GoType)
    (instance : Value) (st : State) :
  singletons i !! t = Some instance ->
  GetInstance P i t st = (Ret (instance, NoopReleaser, None), st).
Proof. intros Hs. unfold GetInstance. rewrite Hs. reflexivity. Qed.

Lemma GetInstance_absent (P : Program) (i : Injector) (t : option GoType)
    (st : State) :
  singletons i !! t = None ->
  transients i !! t = None ->
  GetInstance P i t st = (Ret (VNil, NilReleaser, Some ErrTypeNotRegistered), st).
Proof. intros Hs Ht. unfold GetInstance. rewrite Hs, Ht. reflexivity. Qed.

(** ** Resolution *)

(** C8: resolving a type that is registered neither as a singleton nor as
    a transient fails with [ErrTypeNotRegistered]; no instance and no
    releaser come back, and nothing runs. *)
Theorem GetInstance_unregistered (P : Program) (i : Injector)
    (t : option GoType) (st : State) :
  singletons i !! t = None ->
  transients i !! t = None ->
  GetInstance P i t st = (Ret (VNil, NilReleaser, Some ErrTypeNotRegistered), st).
Proof. intros Hs Ht. apply GetInstance_absent; assumption. Qed.

Lemma GetInstance_unregistered_witness :
  singletons NewInjector !! Some Tests.TString = None /\
  transients NewInjector !! Some Tests.TString = None /\
  GetInstance Tests.test_program NewInjector (Some Tests.TString) Tests.st0
  = (Ret (VNil, NilReleaser, Some ErrTypeNotRegistered), Tests.st0).
Proof.
  split; [reflexivity|]. split; [reflexivity|].
  apply GetInstance_unregistered; reflexivity.
Defined.

(** C5: for a type with a registered singleton, every [GetInstance]
    returns the very value that is stored, with a releaser that does
    nothing and no error; the state is untouched, so a second call
    answers the same. *)
Theorem GetInstance_singleton (P : Program) (i : Injector)
    (t : option GoType) (instance : Value) (st : State) :
  singletons i !! t = Some instance ->
  GetInstance P i t st = (Ret (instance, NoopReleaser, None), st) /\
  (a <- GetInstance P i t ;; b <- GetInstance P i t ;; ret (a.1.1, b.1.1)) st
  = (Ret (instance, instance), st) /\
  (forall st', fst (call_releaser P NoopReleaser st') = Ret tt /\
               heap (snd (call_releaser P NoopReleaser st')) = heap st').
Proof.
  intros Hs.
  pose proof (fun s => GetInstance_stored P i t instance s Hs) as H.
  split; [apply H|]. split.
  - unfold bind. rewrite H. rewrite H. reflexivity.
  - intros st'. split; reflexivity.
Qed.

Lemma GetInstance_singleton_witness :
  let i := register_all [Singleton Tests.simple] NewInjector in
  singletons i !! Some Tests.TSimple = Some Tests.simple /\
  GetInstance Tests.test_program i (Some Tests.TSimple) Tests.st0
  = (Ret (Tests.simple, NoopReleaser, None), Tests.st0).
Proof.
  split; [reflexivity|].
  apply (GetInstance_singleton Tests.test_program _ _ Tests.simple Tests.st0).
  reflexivity.
Defined.

(** ** Permission assertions *)

(** C10: built from nothing, [HasAll] and [And] accept every token and
    [HasAny] and [Or] reject every token. *)
Theorem empty_assertions (token : Permissions.Token) :
  Permissions.HasAll [] token = true /\
  Permissions.And [] token = true /\
  Permissions.HasAny [] token = false /\
  Permissions.Or [] token = false.
Proof. repeat split. Qed.

(** ** Registration *)

Lemma provider_None (i : Injector) (t : option GoType) :
  provider i t = None <-> typeIsRegistered i t = false.
Proof.
  rewrite typeIsRegistered_false. unfold provider.
  destruct (singletons i !! t), (transients i !! t); split;
    try discriminate; try (intros [? ?]; discriminate); auto.
Qed.

Lemma provider_Some (i : Injector) (t : option GoType) (r : Registration) :
  provider i t = Some r -> typeIsRegistered i t = true.
Proof.
  intros H. destruct (typeIsRegistered i t) eqn:E; [reflexivity|].
  apply provider_None in E. congruence.
Qed.

(** The registry is as it was and the registration was for no type. *)
Ltac untouched i t :=
  destruct (provider i t); [reflexivity|];
  first [reflexivity | case_bool_decide; [discriminate|reflexivity]].

Lemma AddSingleton_provider (i : Injector) (instance : Value) (t : option GoType) :
  provider (snd (AddSingleton i instance)) t =
  match provider i t with
  | Some p => Some p
  | None => if for_type t (Singleton instance) then Some (Singleton instance)
            else None
  end.
Proof.
  unfold AddSingleton, for_type. simpl.
  destruct (typeIsRegistered i (TypeOf instance)) eqn:E; simpl.
  - destruct (provider i t) eqn:Ep; [reflexivity|].
    case_bool_decide as Ht; [|reflexivity].
    apply provider_None in Ep. congruence.
  - apply typeIsRegistered_false in E as [Es Et].
    unfold provider; simpl. case_bool_decide as Ht.
    + assert (TypeOf instance = t) as <- by congruence.
      rewrite lookup_insert_eq, Es, Et. reflexivity.
    + rewrite lookup_insert_ne by congruence.
      destruct (singletons i !! t); [reflexivity|].
      destruct (transients i !! t); reflexivity.
Qed.

Lemma AddTransient_provider (i : Injector) (factory : Value) (t : option GoType) :
  provider (snd (AddTransient i factory)) t =
  match provider i t with
  | Some p => Some p
  | None => if for_type t (Transient factory) then Some (Transient factory)
            else None
  end.
Proof.
  unfold AddTransient, for_type. simpl.
  destruct (TypeOf factory) as [f|] eqn:Ef; simpl; [|untouched i t].
  destruct f as [n|e|n|ins outs]; simpl; try untouched i t.
  destruct outs as [|u outs]; simpl; [untouched i t|].
  destruct (typeIsRegistered i (Some u)) eqn:E; simpl.
  - destruct (provider i t) eqn:Ep; [reflexivity|].
    case_bool_decide as Ht; [|reflexivity].
    apply provider_None in Ep. congruence.
  - apply typeIsRegistered_false in E as [Es Et].
    unfold provider; simpl. case_bool_decide as Ht.
    + assert (Some u = t) as <- by congruence.
      rewrite lookup_insert_eq, Es, Et. reflexivity.
    + rewrite lookup_insert_ne by congruence.
      destruct (singletons i !! t); [reflexivity|].
      destruct (transients i !! t); reflexivity.
Qed.

Lemma register_provider (i : Injector) (r : Registration) (t : option GoType) :
  provider (snd (register i r)) t =
  match provider i t with
  | Some p => Some p
  | None => if for_type t r then Some r else None
  end.
Proof.
  destruct r as [instance|factory]; simpl.
  - rewrite <- AddSingleton_provider.
    destruct (AddSingleton i instance). reflexivity.
  - apply AddTransient_provider.
Qed.

Lemma register_all_provider (rs : list Registration) (i : Injector)
    (t : option GoType) :
  provider (register_all rs i) t =
  match provider i t with
  | Some p => Some p
  | None => first_registration t rs
  end.
Proof.
  revert i. induction rs as [|r rs IH]; intros i; simpl.
  - destruct (provider i t); reflexivity.
  - unfold register_all in *. simpl. rewrite IH, register_provider.
    destruct (provider i t); [reflexivity|].
    destruct (for_type t r); reflexivity.
Qed.

Lemma first_registration_for (t : option GoType) (rs : list Registration)
    (r : Registration) :
  first_registration t rs = Some r -> r ∈ rs /\ provided_type r = Some t.
Proof.
  induction rs as [|r' rs IH]; simpl; [discriminate|].
  unfold for_type at 1. case_bool_decide as Hr.
  - intros [= <-]. split; [left|exact Hr].
  - intros H. destruct (IH H) as [Hin Hp]. split; [right; exact Hin|exact Hp].
Qed.

Lemma register_disjoint (i : Injector) (r : Registration) :
  disjoint_providers i -> disjoint_providers (snd (register i r)).
Proof.
  intros Hd. destruct r as [instance|factory]; simpl.
  - unfold AddSingleton.
    destruct (typeIsRegistered i (TypeOf instance)) eqn:E; simpl; [exact Hd|].
    apply typeIsRegistered_false in E as [Es Et].
    intros u [Hs Hf]. simpl in *.
    destruct (decide (TypeOf instance = u)) as [<-|Hne].
    + rewrite Et in Hf. destruct Hf; discriminate.
    + rewrite lookup_insert_ne in Hs by exact Hne. apply (Hd u). auto.
  - unfold AddTransient. destruct (TypeOf factory) as [f|]; simpl; [|exact Hd].
    destruct (negb (bool_decide (kind f = Func))); simpl; [exact Hd|].
    destruct (Out f 0) as [t|]; simpl; [|exact Hd].
    destruct (typeIsRegistered i (Some t)) eqn:E; simpl; [exact Hd|].
    apply typeIsRegistered_false in E as [Es Et].
    intros u [Hs Hf]. simpl in *.
    destruct (decide (Some t = u)) as [<-|Hne].
    + rewrite Es in Hs. destruct Hs; discriminate.
    + rewrite lookup_insert_ne in Hf by exact Hne. apply (Hd u). auto.
Qed.

Lemma register_all_disjoint (rs : list Registration) (i : Injector) :
  disjoint_providers i -> disjoint_providers (register_all rs i).
Proof.
  revert i. induction rs as [|r rs IH]; intros i Hd; simpl; [exact Hd|].
  apply IH, register_disjoint, Hd.
Qed.

Lemma NewInjector_disjoint : disjoint_providers NewInjector.
Proof. intros u [[v Hv] _]. simpl in Hv. rewrite lookup_empty in Hv. discriminate. Qed.




(** C3, as the claim has it, fails: a factory that declares two results
    does not declare a single one, yet [AddTransient] does not answer
    [ErrInvalidFactory]: it registers the factory under the first of
    them. *)
Lemma AddTransient_results_counterexample :
  let factory := VFunc [] [Tests.TString; Tests.TInt] (Some Tests.c_nop) in
  fst (AddTransient NewInjector factory) = Ret None /\
  fst (AddTransient NewInjector factory) <> Ret (Some ErrInvalidFactory) /\
  transients (snd (AddTransient NewInjector factory)) !! Some Tests.TString
  = Some factory.
Proof. split; [reflexivity|]. split; [discriminate|reflexivity]. Qed.

(** C3, amended: [AddTransient] answers [ErrInvalidFactory], and
    registers nothing, for every non-nil value that is not a function; a
    function that declares at least one result, be it one or several, is
    not refused as an invalid factory: it is registered under its first
    result type, or refused with [ErrTypeAlreadyRegistered] when that
    type is taken.  (Nothing is said of a function without results.) *)
Theorem AddTransient_invalid_factory (i : Injector) (factory : Value)
    (f : GoType) :
  TypeOf factory = Some f ->
  (kind f <> Func -> AddTransient i factory = (Ret (Some ErrInvalidFactory), i)) /\
  (forall t, kind f = Func -> Out f 0 = Some t ->
     fst (AddTransient i factory) <> Ret (Some ErrInvalidFactory) /\
     if typeIsRegistered i (Some t)
     then AddTransient i factory = (Ret (Some ErrTypeAlreadyRegistered), i)
     else fst (AddTransient i factory) = Ret None /\
          transients (snd (AddTransient i factory)) !! Some t = Some factory /\
          singletons (snd (AddTransient i factory)) = singletons i).
Proof.
  intros Hf. unfold AddTransient. rewrite Hf. split.
  - intros Hk. case_bool_decide; [contradiction|reflexivity].
  - intros t Hk Ht. case_bool_decide; [|contradiction]. simpl. rewrite Ht.
    destruct (typeIsRegistered i (Some t)); simpl.
    + split; [discriminate|reflexivity].
    + split; [discriminate|]. split; [reflexivity|].
      split; [apply lookup_insert_eq|reflexivity].
Qed.

Lemma AddTransient_invalid_factory_witness :
  TypeOf (VStr "test") = Some Tests.TString /\
  AddTransient NewInjector (VStr "test")
  = (Ret (Some ErrInvalidFactory), NewInjector).
Proof.
  split; [reflexivity|].
  apply (AddTransient_invalid_factory NewInjector (VStr "test") Tests.TString);
    [reflexivity|discriminate].
Defined.

(** ** The router *)

Lemma registered_singleton_type (rs : list Registration) (t : option GoType)
    (v : Value) :
  singletons (register_all rs NewInjector) !! t = Some v -> TypeOf v = t.
Proof.
  intros Hs.
  assert (Hp : provider (register_all rs NewInjector) t = Some (Singleton v)).
  { unfold provider. rewrite Hs. reflexivity. }
  rewrite register_all_provider in Hp. simpl in Hp.
  apply first_registration_for in Hp as [_ Hp]. simpl in Hp. congruence.
Qed.

(** C9, as the claim has it, fails: with the engine type registered as a
    transient there is no engine singleton, yet [NewRouter] succeeds, on
    an engine made by the factory. *)
Lemma NewRouter_transient_engine_counterexample :
  let engine_factory := VFunc [] [TEngine] (Some Tests.c_engine_factory) in
  let di := register_all [Transient engine_factory] NewInjector in
  singletons di !! Some TEngine = None /\
  fst (NewRouter Tests.test_program di Tests.st0)
  = Ret (Some {| g := VPtr (TNamed "gin.Engine") (Some 1); di := di |}, None).
Proof. split; reflexivity. Qed.

(** C9, amended: over an injector built by registrations, [NewRouter]
    fails with the injector's [ErrTypeNotRegistered], and makes no router,
    when the engine type has no provider at all; with an engine singleton
    registered it succeeds and the router holds that very singleton. *)
Theorem NewRouter_engine (P : Program) (rs : list Registration) (st : State) :
  let di := register_all rs NewInjector in
  (typeIsRegistered di (Some TEngine) = false ->
   NewRouter P di st = (Ret (None, Some ErrTypeNotRegistered), st)) /\
  (forall engine, singletons di !! Some TEngine = Some engine ->
   NewRouter P di st = (Ret (Some {| g := engine; di := di |}, None), st)).
Proof.
  intros di. split.
  - intros Hreg. apply typeIsRegistered_false in Hreg as [Hs Ht].
    unfold NewRouter, bind.
    rewrite (GetInstance_absent P di _ st Hs Ht). reflexivity.
  - intros engine Hs.
    pose proof (registered_singleton_type rs _ _ Hs) as Hty.
    unfold NewRouter, bind.
    rewrite (GetInstance_stored P di _ engine st Hs).
    rewrite bool_decide_eq_true_2 by exact Hty. reflexivity.
Qed.

Lemma NewRouter_engine_witness :
  let engine := VPtr (TNamed "gin.Engine") (Some 0) in
  let di := register_all [Singleton engine] NewInjector in
  typeIsRegistered NewInjector (Some TEngine) = false /\
  singletons di !! Some TEngine = Some engine /\
  NewRouter Tests.test_program NewInjector Tests.st0
  = (Ret (None, Some ErrTypeNotRegistered), Tests.st0) /\
  NewRouter Tests.test_program di Tests.st0
  = (Ret (Some {| g := engine; di := di |}, None), Tests.st0).
Proof.
  split; [reflexivity|]. split; [reflexivity|]. split.
  - apply (NewRouter_engine Tests.test_program [] Tests.st0). reflexivity.
  - apply (NewRouter_engine Tests.test_program
             [Singleton (VPtr (TNamed "gin.Engine") (Some 0))] Tests.st0).
    reflexivity.
Defined.

(** ** Invocation *)

Section Invocation.
Variable P : Program.

Lemma enter_trace site code args st :
  trace (snd (enter P site code args st)) = trace st ++ [EvCall site code args].
Proof.
  unfold enter. simpl. destruct (body P code args (heap st)). reflexivity.
Qed.

Lemma call_releaser_trace r st :
  trace (snd (call_releaser P r st)) = trace st ++ release_events P r.
Proof.
  unfold call_releaser, release_events.
  destruct r as [| |inst]; try reflexivity.
  destruct (as_Closer P inst) as [code|]; [|reflexivity].
  unfold bind.
  pose proof (enter_trace AtClose code [inst] (log (EvRelease (CloseReleaser inst)) st)) as H.
  destruct (enter P AtClose code [inst] (log (EvRelease (CloseReleaser inst)) st))
    as [[rs|msg] s]; simpl in *; rewrite H, <- app_assoc; reflexivity.
Qed.

(** Every deferred releaser is called, each once, in stack order,
    whatever the outcome and whether or not one of them panics. *)
Lemma run_defers_trace {A} (defers : list Releaser) (o : Outcome A) st :
  trace (snd (run_defers P defers o st))
  = trace st ++ flat_map (release_events P) defers.
Proof.
  revert o st. induction defers as [|r ds IH]; intros o st; simpl.
  - rewrite app_nil_r. reflexivity.
  - pose proof (call_releaser_trace r st) as H.
    destruct (call_releaser P r st) as [[u|msg] s]; simpl in H;
      rewrite IH, H, <- app_assoc; reflexivity.
Qed.

Lemma call_releaser_heap r st :
  heap (snd (call_releaser P r st)) = closed_heap P [r] (heap st).
Proof.
  unfold call_releaser. destruct r as [| |inst]; try reflexivity.
  simpl. destruct (as_Closer P inst) as [code|]; [|reflexivity].
  unfold bind, enter. simpl.
  destruct (body P code [inst] (heap st)) as [[rs|msg] h]; reflexivity.
Qed.

(** What the deferred releasers do to the heap is what their [Close]
    bodies do, one after the other. *)
Lemma run_defers_heap {A} (defers : list Releaser) (o : Outcome A) st :
  heap (snd (run_defers P defers o st)) = closed_heap P defers (heap st).
Proof.
  revert o st. induction defers as [|r ds IH]; intros o st; [reflexivity|].
  cbn [run_defers closed_heap].
  pose proof (call_releaser_heap r st) as H. cbn [closed_heap] in H.
  destruct (call_releaser P r st) as [[u|msg] s]; simpl in H;
    rewrite IH, H; reflexivity.
Qed.

Lemma run_defers_Ret {A} (defers : list Releaser) (o : Outcome A) st x :
  fst (run_defers P defers o st) = Ret x -> o = Ret x.
Proof.
  revert o st. induction defers as [|r ds IH]; intros o st; simpl.
  - auto.
  - destruct (call_releaser P r st) as [[u|msg] s]; [apply IH|].
    intros H. apply IH in H. discriminate.
Qed.

(** When no releaser panics the outcome is kept. *)
Lemma run_defers_quiet {A} (defers : list Releaser) (o : Outcome A) st :
  fst (run_defers P defers (Ret tt) st) = Ret tt ->
  fst (run_defers P defers o st) = o.
Proof.
  revert o st. induction defers as [|r ds IH]; intros o st; simpl.
  - reflexivity.
  - destruct (call_releaser P r st) as [[u|msg] s]; [apply IH|].
    intros H. apply run_defers_Ret in H. discriminate.
Qed.

Lemma GetInstance_error i t st v r err st' :
  GetInstance P i t st = (Ret (v, r, Some err), st') ->
  err = ErrTypeNotRegistered /\ typeIsRegistered i t = false /\ st' = st.
Proof.
  unfold GetInstance. rewrite typeIsRegistered_false.
  destruct (singletons i !! t) as [s|]; [intros [= ]|].
  destruct (transients i !! t) as [f|].
  - unfold bind, ret, panic.
    destruct (Call P AtFactory f [] st) as [[[|v0 vs]|msg] s];
      try discriminate.
    destruct (as_Closer P v0); discriminate.
  - intros [= <- <- <- <-]. auto.
Qed.

Lemma Call_trace site fn args st results st' :
  Call P site fn args st = (Ret results, st') ->
  exists ins outs code,
    fn = VFunc ins outs (Some code) /\
    body P code args (heap st) = (Ret results, heap st') /\
    trace st' = trace st ++ [EvCall site code args].
Proof.
  unfold Call, panic.
  destruct fn as [| | | | | | |ins outs [code|]]; try discriminate.
  destruct (negb (bool_decide (length args = length ins))); [discriminate|].
  destruct (negb (args_ok P args ins)); [discriminate|].
  unfold enter. simpl.
  destruct (body P code args (heap st)) as [o h] eqn:Hb.
  intros [= -> <-]. exists ins, outs, code. auto.
Qed.

(** Resolving one type logs at most the entry into its factory. *)
Lemma GetInstance_trace i t st o st' :
  GetInstance P i t st = (o, st') ->
  exists tr, trace st' = trace st ++ tr /\ Forall is_factory_call tr.
Proof.
  unfold GetInstance.
  destruct (singletons i !! t) as [s|].
  { intros [= <- <-]. exists []. rewrite app_nil_r. auto. }
  destruct (transients i !! t) as [f|].
  2:{ intros [= <- <-]. exists []. rewrite app_nil_r. auto. }
  unfold bind, Call.
  assert (Hnil : forall (x : Outcome (Value * Releaser * option Error)) s,
    (x, s) = (o, st') -> s = st ->
    exists tr, trace st' = trace st ++ tr /\ Forall is_factory_call tr).
  { intros x s [= <- <-] ->. exists []. rewrite app_nil_r. auto. }
  destruct f as [| | | | | | |ins outs [code|]];
    try (intros H; eapply Hnil; [exact H|reflexivity]).
  destruct (negb (bool_decide (length (@nil Value) = length ins)));
    [intros H; eapply Hnil; [exact H|reflexivity]|].
  destruct (negb (args_ok P [] ins));
    [intros H; eapply Hnil; [exact H|reflexivity]|].
  pose proof (enter_trace AtFactory code [] st) as Htr.
  destruct (enter P AtFactory code [] st) as [[[|v0 vs]|msg] s]; simpl in Htr.
  - intros [= <- <-]. exists [EvCall AtFactory code []]. split; [exact Htr|].
    repeat constructor.
  - destruct (as_Closer P v0); intros [= <- <-];
      exists [EvCall AtFactory code []]; (split; [exact Htr|repeat constructor]).
  - intros [= <- <-]. exists [EvCall AtFactory code []]. split; [exact Htr|].
    repeat constructor.
Qed.

Lemma resolves_trace i ts st rs st' :
  resolves P i ts st rs st' ->
  exists tr, trace st' = trace st ++ tr /\ Forall is_factory_call tr.
Proof.
  induction 1 as [st|t ts st inst rel st1 rs st2 Hg _ IH].
  - exists []. rewrite app_nil_r. auto.
  - apply GetInstance_trace in Hg as (tr1 & E1 & F1).
    destruct IH as (tr2 & E2 & F2).
    exists (tr1 ++ tr2). rewrite E2, E1, <- app_assoc. split; [reflexivity|].
    apply Forall_app. auto.
Qed.


(** The loop of [Invoke], when every remaining parameter resolves. *)
Lemma inject_resolves i ts st rs st' values defers :
  resolves P i ts st rs st' ->
  inject P i ts values defers st
  = (Ret (inr (values ++ map fst rs)), rev (map snd rs) ++ defers, st').
Proof.
  intros H. revert values defers.
  induction H as [st|t ts st inst rel st1 rs st2 Hg _ IH]; intros values defers.
  - simpl. rewrite app_nil_r. reflexivity.
  - simpl. rewrite Hg, IH. simpl.
    rewrite <- !app_assoc. reflexivity.
Qed.

(** The loop of [Invoke], when the parameter after [pre] does not. *)
Lemma inject_unresolved i pre t post st rs st' values defers :
  resolves P i pre st rs st' ->
  typeIsRegistered i (Some t) = false ->
  inject P i (pre ++ t :: post) values defers st
  = (Ret (inl ErrTypeNotRegistered), rev (map snd rs) ++ defers, st').
Proof.
  intros H Hreg. apply typeIsRegistered_false in Hreg as [Hs Ht].
  revert values defers.
  induction H as [st|u ts st inst rel st1 rs st2 Hg _ IH]; intros values defers.
  - simpl. rewrite (GetInstance_absent P i _ st Hs Ht). reflexivity.
  - simpl. rewrite Hg, IH. simpl. rewrite <- !app_assoc. reflexivity.
Qed.

(** The early return of the loop comes from nowhere else: some
    parameter is not registered, and those before it have resolved. *)
Lemma inject_inl_inv i ts values defers st err defers' st' :
  inject P i ts values defers st = (Ret (inl err), defers', st') ->
  exists pre t post rs,
    ts = pre ++ t :: post /\
    resolves P i pre st rs st' /\
    typeIsRegistered i (Some t) = false /\
    err = ErrTypeNotRegistered.
Proof.
  revert values defers st.
  induction ts as [|t ts IH]; intros values defers st; simpl; [discriminate|].
  destruct (GetInstance P i (Some t) st) as [[[[inst rel] [e|]]|msg] st1] eqn:Hg.
  - intros [= <- _ <-].
    apply GetInstance_error in Hg as (-> & Hreg & ->).
    exists [], t, ts, []. split; [reflexivity|]. split; [constructor|]. auto.
  - intros H. apply IH in H as (pre & u & post & rs & -> & Hres & Hreg & ->).
    exists (t :: pre), u, post, ((inst, rel) :: rs).
    split; [reflexivity|]. split; [econstructor; eassumption|]. auto.
  - discriminate.
Qed.

Lemma release_events_shape (defers : list Releaser) :
  Forall (fun e => ~ is_target_call e /\ ~ is_factory_call e)
    (flat_map (release_events P) defers).
Proof.
  induction defers as [|r ds IH]; cbn [flat_map]; [constructor|].
  apply Forall_app. split; [|exact IH].
  unfold release_events. constructor; [simpl; tauto|].
  destruct r as [| |inst]; try constructor.
  destruct (as_Closer P inst); repeat constructor; simpl; tauto.
Qed.
End Invocation.

Section Invoke_properties.
Variable P : Program.

(** The types the loop of [Invoke] goes through are [f.In(j)] for [j]
    from [len(args)] up to [f.NumIn()]. *)
Lemma remaining_parameters (ins outs : list GoType) (n k : nat) :
  drop n ins !! k = In (TFunc ins outs) (n + k) /\
  (k < length (drop n ins) <->
   exists m, NumIn (TFunc ins outs) = Some m /\ n + k < m).
Proof.
  simpl. split; [apply lookup_drop|].
  rewrite length_drop. split.
  - intros H. exists (length ins). split; [reflexivity|lia].
  - intros (m & [= <-] & H). lia.
Qed.

Lemma Invoke_func i ins outs code args st :
  Invoke P i (VFunc ins outs code) args st =
  match inject P i (drop (length args) ins) args [] st with
  | (Panic msg, defers, st1) => run_defers P defers (Panic msg) st1
  | (Ret (inl err), defers, st1) => run_defers P defers (Ret ([], Some err)) st1
  | (Ret (inr values'), defers, st1) =>
      match Call P AtTarget (VFunc ins outs code) values' st1 with
      | (Ret results, st2) => run_defers P defers (Ret (results, None)) st2
      | (Panic msg, st2) => run_defers P defers (Panic msg) st2
      end
  end.
Proof. reflexivity. Qed.

(** The releaser [GetInstance] hands out: nothing to do for a
    singleton; for what a factory made, its [Close] when it has one. *)
Lemma GetInstance_releaser i t st instance releaser st1 :
  GetInstance P i t st = (Ret (instance, releaser, None), st1) ->
  match singletons i !! t with
  | Some _ => releaser = NoopReleaser
  | None =>
      match as_Closer P instance with
      | Some _ => releaser = CloseReleaser instance
      | None => releaser = NoopReleaser
      end
  end.
Proof.
  unfold GetInstance.
  destruct (singletons i !! t) as [s|]; [intros [= _ <- _]; reflexivity|].
  destruct (transients i !! t) as [f|]; [|discriminate].
  unfold bind, ret, panic.
  destruct (Call P AtFactory f [] st) as [[[|v0 vs]|msg] s]; try discriminate.
  destruct (as_Closer P v0) eqn:Hc; intros [= <- <- _]; rewrite Hc; reflexivity.
Qed.

Lemma resolves_releasers i ts st rs st' :
  resolves P i ts st rs st' ->
  Forall2 (fun t ir =>
             match singletons i !! Some t with
             | Some _ => ir.2 = NoopReleaser
             | None =>
                 match as_Closer P ir.1 with
                 | Some _ => ir.2 = CloseReleaser ir.1
                 | None => ir.2 = NoopReleaser
                 end
             end) ts rs.
Proof.
  induction 1 as [st|t ts st inst rel st1 rs st2 Hg _ IH]; constructor;
    [|exact IH].
  apply GetInstance_releaser in Hg. exact Hg.
Qed.
End Invoke_properties.

(** C1, as the claim has it, fails: the releasers of [Invoke] are
    deferred calls, and they run on the early return as well.  Here the
    first parameter resolves to a closable transient and the second is not
    registered: [Invoke] answers the resolution error, and the instance
    made for the first parameter has been closed. *)
Lemma Invoke_unresolved_releases_counterexample :
  let i := register_all [Transient Tests.closable_factory] NewInjector in
  let f := VFunc [TPtr Tests.TClosable; Tests.TSimple] [] (Some Tests.c_nop) in
  let made := VPtr Tests.TClosable (Some 1) in
  let r := Invoke Tests.test_program i f [] Tests.st0 in
  fst r = Ret ([], Some ErrTypeNotRegistered) /\
  trace (snd r) = [EvCall AtFactory Tests.c_closable_factory [];
                   EvRelease (CloseReleaser made);
                   EvCall AtClose Tests.c_Close [made]] /\
  heap (snd r) !! Tests.closed_cell = Some (VBool true).
Proof. repeat split. Qed.

(** C1, amended: when the parameters [pre] after the leading arguments
    resolve and the next one, [t], is not registered, [Invoke] never
    enters the function; every releaser collected for [pre] is called,
    each once and the last collected first, before [Invoke] is left; and
    [Invoke] returns [ErrTypeNotRegistered] with no results, which is
    the only thing it can return, and does return when no [Close] of those
    releasers panics. *)
Theorem Invoke_unresolved_parameter (P : Program) (i : Injector)
    (ins outs : list GoType) (code : option FuncId) (args : list Value)
    (pre post : list GoType) (t : GoType) (rs : list (Value * Releaser))
    (st st1 : State) :
  drop (length args) ins = pre ++ t :: post ->
  resolves P i pre st rs st1 ->
  typeIsRegistered i (Some t) = false ->
  let r := Invoke P i (VFunc ins outs code) args st in
  trace (snd r) = trace st1 ++ flat_map (release_events P) (rev (map snd rs)) /\
  (exists tr, trace (snd r) = trace st ++ tr /\
              Forall (fun e => ~ is_target_call e) tr) /\
  (forall x, fst r = Ret x -> x = ([], Some ErrTypeNotRegistered)) /\
  (fst (run_defers P (rev (map snd rs)) (Ret tt) st1) = Ret tt ->
   fst r = Ret ([], Some ErrTypeNotRegistered)).
Proof.
  intros Hdrop Hres Hreg r. subst r.
  rewrite Invoke_func, Hdrop.
  rewrite (inject_unresolved P i pre t post st rs st1 args [] Hres Hreg).
  rewrite app_nil_r.
  split; [apply run_defers_trace|]. split; [|split].
  - destruct (resolves_trace P i pre st rs st1 Hres) as (tr1 & E1 & F1).
    exists (tr1 ++ flat_map (release_events P) (rev (map snd rs))).
    rewrite run_defers_trace, E1, <- app_assoc. split; [reflexivity|].
    apply Forall_app. split.
    + eapply Forall_impl; [|exact F1].
      intros [[] c [|a l]|] H; simpl in *; tauto.
    + eapply Forall_impl; [|apply release_events_shape]. simpl. tauto.
  - intros x Hx. apply run_defers_Ret in Hx. congruence.
  - intros Hq. apply run_defers_quiet, Hq.
Qed.

Lemma Invoke_unresolved_parameter_witness :
  let i := register_all [Transient Tests.closable_factory] NewInjector in
  let ins := [TPtr Tests.TClosable; Tests.TSimple] in
  let made := VPtr Tests.TClosable (Some 1) in
  let st1 := {| heap := [VBool false;
                         VStruct "closableObject" [VPtr (TNamed "bool") (Some 0)]];
                trace := [EvCall AtFactory Tests.c_closable_factory []] |} in
  drop (length (@nil Value)) ins = [TPtr Tests.TClosable] ++ Tests.TSimple :: [] /\
  resolves Tests.test_program i [TPtr Tests.TClosable] Tests.st0
    [(made, CloseReleaser made)] st1 /\
  typeIsRegistered i (Some Tests.TSimple) = false /\
  fst (Invoke Tests.test_program i (VFunc ins [] (Some Tests.c_nop)) [] Tests.st0)
  = Ret ([], Some ErrTypeNotRegistered).
Proof.
  assert (Hres : resolves Tests.test_program
            (register_all [Transient Tests.closable_factory] NewInjector)
            [TPtr Tests.TClosable] Tests.st0
            [(VPtr Tests.TClosable (Some 1),
              CloseReleaser (VPtr Tests.TClosable (Some 1)))]
            {| heap := [VBool false;
                        VStruct "closableObject" [VPtr (TNamed "bool") (Some 0)]];
               trace := [EvCall AtFactory Tests.c_closable_factory []] |}).
  { eapply resolves_cons; [reflexivity|apply resolves_nil]. }
  split; [reflexivity|]. split; [exact Hres|]. split; [reflexivity|].
  apply (Invoke_unresolved_parameter Tests.test_program _ _ [] (Some Tests.c_nop)
           [] [TPtr Tests.TClosable] [] Tests.TSimple _ Tests.st0 _
           eq_refl Hres eq_refl).
  reflexivity.
Defined.

(** C4: when every remaining parameter resolves, the function is called
    and [Invoke] returns, then what [Invoke] returns is the function's
    results with no error, whatever the [Close] methods answered; nothing
    is released before the call has returned; after it, every collected
    releaser is called, each once and the last collected first; the
    releaser of an instance that a factory made and that is an
    [io.Closer] enters its [Close]; and the heap [Invoke] leaves is the
    one the function left with those [Close] bodies run on it, each on
    its instance and in that order. *)
Theorem Invoke_releases_after_call (P : Program) (i : Injector)
    (ins outs : list GoType) (code : option FuncId) (args : list Value)
    (rs : list (Value * Releaser)) (results : list Value)
    (st st1 st2 st' : State) (x : list Value * option Error) :
  resolves P i (drop (length args) ins) st rs st1 ->
  Call P AtTarget (VFunc ins outs code) (args ++ map fst rs) st1
  = (Ret results, st2) ->
  Invoke P i (VFunc ins outs code) args st = (Ret x, st') ->
  let released := flat_map (release_events P) (rev (map snd rs)) in
  x = (results, None) /\
  trace st' = trace st2 ++ released /\
  heap st' = closed_heap P (rev (map snd rs)) (heap st2) /\
  (exists tr, trace st2 = trace st ++ tr /\ Forall (fun e => ~ is_release e) tr) /\
  Forall2 (fun t ir =>
             match singletons i !! Some t with
             | Some _ => ir.2 = NoopReleaser
             | None =>
                 match as_Closer P ir.1 with
                 | Some close =>
                     ir.2 = CloseReleaser ir.1 /\
                     EvRelease ir.2 ∈ released /\
                     EvCall AtClose close [ir.1] ∈ released
                 | None => ir.2 = NoopReleaser
                 end
             end) (drop (length args) ins) rs.
Proof.
  intros Hres Hcall Hinv released.
  rewrite Invoke_func in Hinv.
  rewrite (inject_resolves P i _ st rs st1 args [] Hres), Hcall, app_nil_r in Hinv.
  split; [|split; [|split; [|split]]].
  - apply (f_equal fst) in Hinv. simpl in Hinv.
    apply run_defers_Ret in Hinv. congruence.
  - apply (f_equal snd) in Hinv. simpl in Hinv. rewrite <- Hinv.
    apply run_defers_trace.
  - apply (f_equal snd) in Hinv. simpl in Hinv. rewrite <- Hinv.
    apply run_defers_heap.
  - destruct (resolves_trace P i _ st rs st1 Hres) as (tr1 & E1 & F1).
    apply Call_trace in Hcall as (ins' & outs' & c & _ & _ & E2).
    exists (tr1 ++ [EvCall AtTarget c (args ++ map fst rs)]).
    rewrite E2, E1, <- app_assoc. split; [reflexivity|].
    apply Forall_app. split.
    + eapply Forall_impl; [|exact F1]. intros [s c' a|r] H; simpl in *; tauto.
    + repeat constructor. simpl. tauto.
  - pose proof (resolves_releasers P i _ st rs st1 Hres) as HF.
    assert (Hin : forall ir, ir ∈ rs ->
              forall e, e ∈ release_events P ir.2 -> e ∈ released).
    { intros ir Hir e He. unfold released.
      apply list_elem_of_In, in_flat_map. exists ir.2.
      split; [|apply list_elem_of_In, He].
      apply in_rev. rewrite rev_involutive.
      apply in_map, list_elem_of_In, Hir. }
    clear Hres Hinv Hcall. clearbody released. revert Hin.
    induction HF as [|t ir ts rs' H1 _ IH]; intros Hin; constructor.
    + destruct (singletons i !! Some t); [exact H1|].
      destruct (as_Closer P ir.1) as [close|] eqn:Hc; [|exact H1].
      split; [exact H1|].
      split; apply (Hin ir (list_elem_of_here _ _)); rewrite H1;
        unfold release_events; rewrite Hc; repeat constructor.
    + apply IH. intros ir' Hir'. apply Hin. right. exact Hir'.
Qed.

Lemma Invoke_releases_after_call_witness :
  let i := register_all [Transient Tests.closable_factory;
                         Transient Tests.failing_factory] NewInjector in
  let ins := [TPtr Tests.TClosable; TPtr (TNamed "failingCloser")] in
  let f := VFunc ins [] (Some Tests.c_nop) in
  let c1 := VPtr Tests.TClosable (Some 1) in
  let c2 := VPtr (TNamed "failingCloser") (Some 2) in
  let rs := [(c1, CloseReleaser c1); (c2, CloseReleaser c2)] in
  let made := [VStruct "closableObject" [VPtr (TNamed "bool") (Some 0)];
               VStruct "failingCloser" []] in
  let st1 := {| heap := VBool false :: made;
                trace := [EvCall AtFactory Tests.c_closable_factory [];
                          EvCall AtFactory Tests.c_failing_factory []] |} in
  let st2 := {| heap := heap st1;
                trace := trace st1 ++ [EvCall AtTarget Tests.c_nop [c1; c2]] |} in
  let st' := {| heap := VBool true :: made;
                trace := trace st2 ++
                  [EvRelease (CloseReleaser c2);
                   EvCall AtClose Tests.c_failing_Close [c2];
                   EvRelease (CloseReleaser c1);
                   EvCall AtClose Tests.c_Close [c1]] |} in
  resolves Tests.test_program i (drop 0 ins) Tests.st0 rs st1 /\
  Call Tests.test_program AtTarget f [c1; c2] st1 = (Ret [], st2) /\
  Invoke Tests.test_program i f [] Tests.st0 = (Ret ([], None), st') /\
  heap st' = closed_heap Tests.test_program (rev (map snd rs)) (heap st2) /\
  heap st' !! Tests.closed_cell = Some (VBool true).
Proof.
  assert (Hres : resolves Tests.test_program
            (register_all [Transient Tests.closable_factory;
                           Transient Tests.failing_factory] NewInjector)
            (drop 0 [TPtr Tests.TClosable; TPtr (TNamed "failingCloser")])
            Tests.st0
            [(VPtr Tests.TClosable (Some 1),
              CloseReleaser (VPtr Tests.TClosable (Some 1)));
             (VPtr (TNamed "failingCloser") (Some 2),
              CloseReleaser (VPtr (TNamed "failingCloser") (Some 2)))]
            {| heap := [VBool false;
                        VStruct "closableObject" [VPtr (TNamed "bool") (Some 0)];
                        VStruct "failingCloser" []];
               trace := [EvCall AtFactory Tests.c_closable_factory [];
                         EvCall AtFactory Tests.c_failing_factory []] |}).
  { eapply resolves_cons; [reflexivity|].
    eapply resolves_cons; [reflexivity|apply resolves_nil]. }
  split; [exact Hres|]. split; [reflexivity|]. split; [reflexivity|].
  split; [|reflexivity].
  refine (proj1 (proj2 (proj2
    (Invoke_releases_after_call Tests.test_program _
       [TPtr Tests.TClosable; TPtr (TNamed "failingCloser")] []
       (Some Tests.c_nop) [] _ [] Tests.st0 _ _ _ ([], None)
       Hres eq_refl eq_refl)))).
Defined.




(** [Invoke(f, 1, 2)] for [f(a, b) = a + b] yields [[3]]. *)
Example Invoke_add :
  fst (Invoke Tests.test_program NewInjector Tests.add [VInt 1; VInt 2] Tests.st0)
  = Ret ([VInt 3], None).
Proof. reflexivity. Qed.

Lemma GetInstance_factory (P : Program) (i : Injector) (t : option GoType)
    (outs : list GoType) (code : FuncId) (s : State) (v : Value)
    (rest : list Value) (h' : Heap) :
  singletons i !! t = None ->
  transients i !! t = Some (VFunc [] outs (Some code)) ->
  body P code [] (heap s) = (Ret (v :: rest), h') ->
  exists releaser,
    GetInstance P i t s
    = (Ret (v, releaser, None),
       {| heap := h'; trace := trace s ++ [EvCall AtFactory code []] |}).
Proof.
  intros Hs Ht Hb. unfold GetInstance. rewrite Hs, Ht.
  unfold bind, Call, enter. simpl. rewrite Hb.
  destruct (as_Closer P v); eexists; reflexivity.
Qed.

(** C6: for a type whose provider is a factory, every [GetInstance]
    enters the factory's body on the heap as it is then and returns the
    first result of that very call; nothing is kept from one resolution
    to the next.  So when the factory makes a new object each time, two
    resolutions in a row, as for two parameters of one [Invoke], return
    two different pointers, although the objects hold the same. *)
Theorem GetInstance_transient (P : Program) (i : Injector) (t : GoType)
    (outs : list GoType) (code : FuncId) (st : State) :
  singletons i !! Some t = None ->
  transients i !! Some t = Some (VFunc [] outs (Some code)) ->
  (forall s v rest h',
     body P code [] (heap s) = (Ret (v :: rest), h') ->
     exists releaser,
       GetInstance P i (Some t) s
       = (Ret (v, releaser, None),
          {| heap := h'; trace := trace s ++ [EvCall AtFactory code []] |})) /\
  (forall elem cell,
     allocates P code elem cell ->
     let n := length (heap st) in
     let first := VPtr elem (Some n) in
     let second := VPtr elem (Some (S n)) in
     exists r1 r2 st1 st2,
       GetInstance P i (Some t) st = (Ret (first, r1, None), st1) /\
       GetInstance P i (Some t) st1 = (Ret (second, r2, None), st2) /\
       resolves P i [t; t] st [(first, r1); (second, r2)] st2 /\
       first <> second /\
       heap st2 !! n = Some cell /\
       heap st2 !! S n = Some cell /\
       trace st2 = trace st ++ [EvCall AtFactory code []; EvCall AtFactory code []]).
Proof.
  intros Hs Ht. split.
  - intros s v rest h' Hb. eapply GetInstance_factory; eassumption.
  - intros elem cell Halloc n first second.
    destruct (GetInstance_factory P i _ outs code st _ _ _ Hs Ht (Halloc (heap st)))
      as [r1 H1].
    set (st1 := {| heap := heap st ++ [cell];
                   trace := trace st ++ [EvCall AtFactory code []] |}) in *.
    destruct (GetInstance_factory P i _ outs code st1 _ _ _ Hs Ht (Halloc (heap st1)))
      as [r2 H2].
    assert (Hlen : length (heap st1) = S n).
    { simpl. rewrite length_app. simpl. unfold n. lia. }
    rewrite Hlen in H2.
    exists r1, r2, st1. eexists. split; [exact H1|]. split; [exact H2|].
    split; [eapply resolves_cons; [exact H1|];
            eapply resolves_cons; [exact H2|apply resolves_nil]|].
    split; [unfold first, second; intros [= E]; lia|].
    subst st1. simpl. split; [|split].
    + rewrite lookup_app_l by (rewrite length_app; simpl; unfold n; lia).
      rewrite lookup_app_r by (unfold n; lia).
      replace (n - length (heap st)) with 0 by (unfold n; lia). reflexivity.
    + rewrite lookup_app_r by (rewrite length_app; simpl; unfold n; lia).
      rewrite length_app. simpl.
      replace (S n - (length (heap st) + 1)) with 0 by (unfold n; lia).
      reflexivity.
    + rewrite <- app_assoc. reflexivity.
Qed.

Lemma GetInstance_transient_witness :
  let i := register_all [Transient Tests.simple_factory] NewInjector in
  let t := TPtr Tests.TSimple in
  singletons i !! Some t = None /\
  transients i !! Some t = Some Tests.simple_factory /\
  allocates Tests.test_program Tests.c_simple_factory Tests.TSimple Tests.simple /\
  exists r1 r2 st1 st2,
    GetInstance Tests.test_program i (Some t) Tests.st0
    = (Ret (VPtr Tests.TSimple (Some 1), r1, None), st1) /\
    GetInstance Tests.test_program i (Some t) st1
    = (Ret (VPtr Tests.TSimple (Some 2), r2, None), st2) /\
    heap st2 !! 1 = Some Tests.simple /\
    heap st2 !! 2 = Some Tests.simple.
Proof.
  assert (Halloc : allocates Tests.test_program Tests.c_simple_factory
                     Tests.TSimple Tests.simple).
  { intros h. reflexivity. }
  split; [reflexivity|]. split; [reflexivity|]. split; [exact Halloc|].
  destruct (proj2 (GetInstance_transient Tests.test_program
                     (register_all [Transient Tests.simple_factory] NewInjector)
                     (TPtr Tests.TSimple) [TPtr Tests.TSimple]
                     Tests.c_simple_factory Tests.st0 eq_refl eq_refl)
                  Tests.TSimple Tests.simple Halloc)
    as (r1 & r2 & st1 & st2 & H1 & H2 & _ & _ & Hc1 & Hc2 & _).
  exists r1, r2, st1, st2. auto.
Defined.

(** * Further properties *)

(** ** The injector *)

(** X1: [Invoke] on a value that is not a function (and not nil) answers
    [ErrNotInvokable] with no results, whatever the leading arguments;
    nothing is resolved and nothing runs. *)
Theorem Invoke_not_invokable (P : Program) (i : Injector) (fn : Value)
    (f : GoType) (args : list Value) (st : State) :
  TypeOf fn = Some f ->
  kind f <> Func ->
  Invoke P i fn args st = (Ret ([], Some ErrNotInvokable), st).
Proof.
  intros Hf Hk. unfold Invoke. rewrite Hf.
  rewrite bool_decide_eq_false_2 by exact Hk. reflexivity.
Qed.

Lemma Invoke_not_invokable_witness :
  TypeOf (VStr "test") = Some Tests.TString /\
  kind Tests.TString <> Func /\
  Invoke Tests.test_program NewInjector (VStr "test") [VInt 1] Tests.st0
  = (Ret ([], Some ErrNotInvokable), Tests.st0).
Proof.
  split; [reflexivity|]. split; [discriminate|].
  apply (Invoke_not_invokable _ _ _ Tests.TString); [reflexivity|discriminate].
Defined.

(** X2: [AddSingleton] of a value whose type has no provider succeeds;
    afterwards [GetInstance] on that type answers the value, the
    providers of all other types are as before, and the transients are
    untouched. *)
Theorem AddSingleton_then_GetInstance (P : Program) (i : Injector)
    (instance : Value) :
  typeIsRegistered i (TypeOf instance) = false ->
  fst (AddSingleton i instance) = None /\
  (forall st, GetInstance P (snd (AddSingleton i instance)) (TypeOf instance) st
              = (Ret (instance, NoopReleaser, None), st)) /\
  (forall t, t <> TypeOf instance ->
             provider (snd (AddSingleton i instance)) t = provider i t) /\
  transients (snd (AddSingleton i instance)) = transients i.
Proof.
  intros Hreg. unfold AddSingleton. rewrite Hreg. simpl.
  split; [reflexivity|]. split; [|split; [|reflexivity]].
  - intros st. apply GetInstance_stored. simpl. apply lookup_insert_eq.
  - intros t Hne. unfold provider. simpl.
    rewrite lookup_insert_ne by congruence. reflexivity.
Qed.

Lemma AddSingleton_then_GetInstance_witness :
  typeIsRegistered NewInjector (TypeOf Tests.simple) = false /\
  GetInstance Tests.test_program (snd (AddSingleton NewInjector Tests.simple))
    (TypeOf Tests.simple) Tests.st0
  = (Ret (Tests.simple, NoopReleaser, None), Tests.st0).
Proof.
  split; [reflexivity|].
  apply (AddSingleton_then_GetInstance Tests.test_program NewInjector
           Tests.simple eq_refl).
Defined.

(** X3: [AddTransient] does not look at a factory's parameters, nor at
    whether the function value is nil.  A factory that is not variadic
    (as every [VFunc] is) and declares a parameter, or that is a nil
    function value, is registered under its first result type like any
    other, and every [GetInstance] on that type then panics, without
    entering any body and leaving the state as it was. *)
Theorem AddTransient_unusable_factory (P : Program) (i : Injector)
    (ins outs : list GoType) (t : GoType) (code : option FuncId) (st : State) :
  ins <> [] \/ code = None ->
  typeIsRegistered i (Some t) = false ->
  let factory := VFunc ins (t :: outs) code in
  fst (AddTransient i factory) = Ret None /\
  exists msg, GetInstance P (snd (AddTransient i factory)) (Some t) st
              = (Panic msg, st).
Proof.
  intros Hbad Hreg factory. unfold AddTransient. simpl. rewrite Hreg. simpl.
  split; [reflexivity|].
  apply typeIsRegistered_false in Hreg as [Hs Ht].
  unfold GetInstance. simpl. rewrite Hs, lookup_insert_eq.
  unfold bind, Call, panic. destruct code as [c|].
  - destruct Hbad as [Hins|]; [|discriminate].
    destruct ins as [|p ins]; [contradiction|]. simpl. eexists. reflexivity.
  - eexists. reflexivity.
Qed.

Lemma AddTransient_unusable_factory_witness :
  let factory := VFunc [Tests.TInt] [Tests.TString] (Some Tests.c_nop) in
  ([Tests.TInt] <> [] \/ Some Tests.c_nop = None) /\
  typeIsRegistered NewInjector (Some Tests.TString) = false /\
  fst (AddTransient NewInjector factory) = Ret None /\
  exists msg,
    GetInstance Tests.test_program (snd (AddTransient NewInjector factory))
      (Some Tests.TString) Tests.st0 = (Panic msg, Tests.st0).
Proof.
  assert (H : [Tests.TInt] <> [] \/ Some Tests.c_nop = None)
    by (left; discriminate).
  split; [exact H|]. split; [reflexivity|].
  apply (AddTransient_unusable_factory Tests.test_program NewInjector
           [Tests.TInt] [] Tests.TString (Some Tests.c_nop) Tests.st0 H eq_refl).
Defined.

Lemma first_registration_iff (t : option GoType) (rs : list Registration) :
  is_Some (first_registration t rs) <->
  exists r, r ∈ rs /\ provided_type r = Some t.
Proof.
  split.
  - intros [r Hr]. exists r. apply first_registration_for, Hr.
  - intros (r & Hin & Hp). induction rs as [|r' rs IH]; simpl.
    + inversion Hin.
    + unfold for_type at 1. case_bool_decide as Hr'; [eexists; reflexivity|].
      apply IH. inversion Hin; subst; [contradiction|assumption].
Qed.

(** X4: after a sequence of registrations on a new injector, a type is
    registered exactly when some registration of the sequence was for
    it; a new injector has nothing registered. *)
Theorem registered_iff (rs : list Registration) (t : option GoType) :
  typeIsRegistered NewInjector t = false /\
  (typeIsRegistered (register_all rs NewInjector) t = true <->
   exists r, r ∈ rs /\ provided_type r = Some t).
Proof.
  split; [reflexivity|].
  rewrite typeIsRegistered_provider, bool_decide_eq_true.
  rewrite register_all_provider. simpl. apply first_registration_iff.
Qed.

(** X5: the registry stays well formed under registrations: a singleton
    is kept under the dynamic type of its value, and what is kept as a
    transient is a function value with at least one result, under its
    first result type; so the nil type never has a transient. *)
Theorem registry_well_formed (rs : list Registration) :
  let i := register_all rs NewInjector in
  (forall t v, singletons i !! t = Some v -> TypeOf v = t) /\
  (forall t f, transients i !! t = Some f ->
     exists ins u outs code, f = VFunc ins (u :: outs) code /\ t = Some u) /\
  transients i !! None = None.
Proof.
  intros i.
  assert (Htr : forall t f, transients i !! t = Some f ->
     exists ins u outs code, f = VFunc ins (u :: outs) code /\ t = Some u).
  { intros t f Hf.
    assert (Hs : singletons i !! t = None).
    { destruct (singletons i !! t) as [v|] eqn:Hs; [|reflexivity].
      exfalso. apply (register_all_disjoint rs _ NewInjector_disjoint t).
      fold i. rewrite Hs, Hf. split; eexists; reflexivity. }
    assert (Hp : provider i t = Some (Transient f)).
    { unfold provider. rewrite Hs, Hf. reflexivity. }
    unfold i in Hp. rewrite register_all_provider in Hp. simpl in Hp.
    apply first_registration_for in Hp as [_ Hp]. simpl in Hp.
    destruct f as [| | | | | | |ins [|u outs] code]; simpl in Hp;
      try discriminate.
    exists ins, u, outs, code. split; [reflexivity|congruence]. }
  split; [|split; [exact Htr|]].
  - intros t v Hs. eapply registered_singleton_type. exact Hs.
  - destruct (transients i !! None) as [f|] eqn:Hf; [|reflexivity].
    destruct (Htr _ _ Hf) as (? & ? & ? & ? & _ & ?). discriminate.
Qed.

(** ** Invocation, on every way out *)

(** However the loop of [Invoke] ends, it has resolved the types up to
    the first that does not resolve, deferred one releaser for each of
    them, and logged at most what the resolution it stopped at had
    logged. *)
Lemma inject_any (P : Program) (i : Injector) ts values defers st o defers' st' :
  inject P i ts values defers st = (o, defers', st') ->
  exists pre rest rs st1 mid,
    ts = pre ++ rest /\
    resolves P i pre st rs st1 /\
    defers' = rev (map snd rs) ++ defers /\
    trace st' = trace st1 ++ mid /\
    Forall is_factory_call mid /\
    (forall v, o = Ret (inr v) -> rest = [] /\ v = values ++ map fst rs /\ st' = st1) /\
    stops_at P i rest st1.
Proof.
  revert values defers st.
  induction ts as [|t ts IH]; intros values defers st; simpl.
  - intros [= <- <- <-]. exists [], [], [], st, [].
    rewrite !app_nil_r.
    split; [reflexivity|]. split; [constructor|]. split; [reflexivity|].
    split; [reflexivity|]. split; [constructor|].
    split; [|exact I]. intros v [= <-]. auto.
  - destruct (GetInstance P i (Some t) st) as [[[[inst rel] [e|]]|msg] s] eqn:Hg.
    + intros [= <- <- <-].
      assert (Hun : unresolved P i t st).
      { intros inst' rel' s'. rewrite Hg. discriminate. }
      apply GetInstance_error in Hg as (_ & _ & ->).
      exists [], (t :: ts), [], st, []. rewrite app_nil_r.
      split; [reflexivity|]. split; [constructor|]. split; [reflexivity|].
      split; [reflexivity|]. split; [constructor|].
      split; [discriminate|exact Hun].
    + intros H. apply IH in H
        as (pre & rest & rs & st1 & mid & -> & Hres & -> & Htr & Hmid & Hv & Hstop).
      exists (t :: pre), rest, ((inst, rel) :: rs), st1, mid.
      split; [reflexivity|]. split; [econstructor; eassumption|].
      split; [simpl; rewrite <- app_assoc; reflexivity|].
      split; [exact Htr|]. split; [exact Hmid|]. split; [|exact Hstop].
      intros v Ho. destruct (Hv v Ho) as (-> & -> & ->).
      rewrite <- app_assoc. auto.
    + intros [= <- <- <-].
      assert (Hun : unresolved P i t st).
      { intros inst' rel' s'. rewrite Hg. discriminate. }
      apply GetInstance_trace in Hg as (tr & Htr & Hf).
      exists [], (t :: ts), [], st, tr.
      split; [reflexivity|]. split; [constructor|]. split; [reflexivity|].
      split; [exact Htr|]. split; [exact Hf|].
      split; [discriminate|exact Hun].
Qed.

(** [Call] logs the entry into the body, or nothing when it panics
    before. *)
Lemma Call_trace_any (P : Program) site fn args st :
  exists tr, trace (snd (Call P site fn args st)) = trace st ++ tr /\
             Forall (fun e => exists code, e = EvCall site code args) tr.
Proof.
  unfold Call, panic.
  assert (Hnil : exists tr, trace st = trace st ++ tr /\
            Forall (fun e => exists code, e = EvCall site code args) tr).
  { exists []. rewrite app_nil_r. auto. }
  destruct fn as [| | | | | | |ins outs [code|]]; try exact Hnil.
  destruct (negb (bool_decide (length args = length ins))); [exact Hnil|].
  destruct (negb (args_ok P args ins)); [exact Hnil|].
  exists [EvCall site code args]. split; [apply enter_trace|].
  repeat constructor. exists code. reflexivity.
Qed.

(** The part that resolves is determined: two ways of cutting the same
    types into a part that resolves and a rest that stops are the same
    way. *)
Lemma resolved_prefix_unique (P : Program) (i : Injector)
    pre rest rs st st1 pre' rest' rs' st1' :
  resolves P i pre st rs st1 -> stops_at P i rest st1 ->
  resolves P i pre' st rs' st1' -> stops_at P i rest' st1' ->
  pre ++ rest = pre' ++ rest' ->
  pre = pre' /\ rs = rs' /\ st1 = st1'.
Proof.
  intros Hres. revert pre' rs' st1'.
  induction Hres as [st|t ts st inst rel s rs s2 Hg _ IH];
    intros pre' rs' st1' Hstop Hres' Hstop' Heq.
  - inversion Hres' as [|t ts s0 inst rel s rs0 s2 Hg _]; subst; [auto|].
    simpl in Heq. subst rest. exfalso. exact (Hstop _ _ _ Hg).
  - inversion Hres' as [|t' ts' s0 inst' rel' s' rs0 s2' Hg' Hres0]; subst.
    + simpl in Heq. subst rest'. exfalso. exact (Hstop' _ _ _ Hg).
    + simpl in Heq. injection Heq as <- Heq.
      rewrite Hg in Hg'. injection Hg' as <- <- <-.
      destruct (IH _ _ _ Hstop Hres0 Hstop' Heq) as (-> & -> & ->). auto.
Qed.

(** X6: whichever way [Invoke] ends (by its results, by the resolution
    error, by a panic of a factory, of the function or of a [Close]), the
    releasers it has collected are each called once, the last collected
    first, and after everything else: no releaser is called before.  The
    releasers collected are those of the parameters that resolved: [pre]
    is all of the remaining parameters, or stops at the first that does
    not resolve. *)
Theorem Invoke_releases_on_every_exit (P : Program) (i : Injector)
    (ins outs : list GoType) (code : option FuncId) (args : list Value)
    (st : State) :
  exists (pre rest : list GoType) (rs : list (Value * Releaser))
         (st1 : State) (before : list Event),
    drop (length args) ins = pre ++ rest /\
    resolves P i pre st rs st1 /\
    stops_at P i rest st1 /\
    trace (snd (Invoke P i (VFunc ins outs code) args st))
    = trace st ++ before ++ flat_map (release_events P) (rev (map snd rs)) /\
    Forall (fun e => ~ is_release e) before.
Proof.
  rewrite Invoke_func.
  destruct (inject P i (drop (length args) ins) args [] st)
    as [[o defers] s] eqn:Hinj.
  apply inject_any in Hinj
    as (pre & rest & rs & st1 & mid & Hts & Hres & -> & Htr & Hmid & Hv & Hstop).
  rewrite app_nil_r.
  destruct (resolves_trace P i pre st rs st1 Hres) as (tr1 & E1 & F1).
  assert (Hfac : forall l, Forall is_factory_call l ->
                           Forall (fun e => ~ is_release e) l).
  { intros l Hl. eapply Forall_impl; [|exact Hl].
    intros [[] c [|a l']|r] H; simpl in *; tauto. }
  assert (Hend : forall A (x : Outcome A),
            trace (snd (run_defers P (rev (map snd rs)) x s))
            = trace st ++ (tr1 ++ mid) ++
              flat_map (release_events P) (rev (map snd rs))).
  { intros A x. rewrite run_defers_trace, Htr, E1, <- !app_assoc. reflexivity. }
  exists pre, rest, rs, st1.
  destruct o as [[e|values']|msg].
  - exists (tr1 ++ mid). split; [exact Hts|].
    split; [exact Hres|]. split; [exact Hstop|].
    split; [apply Hend|]. apply Forall_app. auto.
  - destruct (Call_trace_any P AtTarget (VFunc ins outs code) values' s)
      as (trc & Ec & Fc).
    exists (tr1 ++ mid ++ trc). split; [exact Hts|].
    split; [exact Hres|]. split; [exact Hstop|].
    split.
    + destruct (Call P AtTarget (VFunc ins outs code) values' s)
        as [[results|msg] s2]; simpl in Ec;
        rewrite run_defers_trace, Ec, Htr, E1, <- !app_assoc; reflexivity.
    + apply Forall_app. split; [auto|]. apply Forall_app. split; [auto|].
      eapply Forall_impl; [|exact Fc]. intros e [c ->]. simpl. tauto.
  - exists (tr1 ++ mid). split; [exact Hts|].
    split; [exact Hres|]. split; [exact Hstop|].
    split; [apply Hend|]. apply Forall_app. auto.
Qed.

(** X7: an error returned by [Invoke] is [ErrNotInvokable] or
    [ErrTypeNotRegistered]; it comes with no results, and the function
    has not been entered. *)
Theorem Invoke_error_results (P : Program) (i : Injector) (fn : Value)
    (args results : list Value) (err : Error) (st st' : State) :
  Invoke P i fn args st = (Ret (results, Some err), st') ->
  results = [] /\
  (err = ErrNotInvokable \/ err = ErrTypeNotRegistered) /\
  exists tr, trace st' = trace st ++ tr /\ Forall (fun e => ~ is_target_call e) tr.
Proof.
  destruct fn as [| | | | | | |ins outs code];
    try (unfold Invoke, panic; simpl; discriminate);
    try (unfold Invoke, ret; simpl; intros [= <- <- <-];
         split; [reflexivity|]; split; [left; reflexivity|];
         exists []; rewrite app_nil_r; auto).
  rewrite Invoke_func.
  destruct (inject P i (drop (length args) ins) args [] st)
    as [[[[e|values']|msg] defers] s] eqn:Hinj.
  - intros H. pose proof (f_equal fst H) as Ho. simpl in Ho.
    apply run_defers_Ret in Ho. injection Ho as <- <-.
    pose proof (f_equal snd H) as Hs. simpl in Hs. subst st'.
    pose proof Hinj as Hany.
    apply inject_inl_inv in Hinj as (pre & t & post & rs & _ & Hres & _ & ->).
    apply inject_any in Hany
      as (pre' & rest' & rs' & st1 & mid & _ & Hres' & -> & Htr & Hmid & _).
    destruct (resolves_trace P i pre' st rs' st1 Hres') as (tr1 & E1 & F1).
    split; [reflexivity|]. split; [right; reflexivity|].
    exists (tr1 ++ mid ++ flat_map (release_events P) (rev (map snd rs') ++ [])).
    rewrite run_defers_trace, Htr, E1, <- !app_assoc. split; [reflexivity|].
    apply Forall_app. split.
    { eapply Forall_impl; [|exact F1]. intros [[] c [|a l]|] Hx; simpl in *; tauto. }
    apply Forall_app. split.
    { eapply Forall_impl; [|exact Hmid]. intros [[] c [|a l]|] Hx; simpl in *; tauto. }
    eapply Forall_impl; [|apply release_events_shape]. simpl. tauto.
  - destruct (Call P AtTarget (VFunc ins outs code) values' s) as [[r|msg] s2];
      intros H; apply (f_equal fst) in H; simpl in H;
      apply run_defers_Ret in H; discriminate.
  - intros H. apply (f_equal fst) in H. simpl in H.
    apply run_defers_Ret in H. discriminate.
Qed.

Lemma Invoke_error_results_witness :
  Invoke Tests.test_program NewInjector Tests.value_of [] Tests.st0
  = (Ret ([], Some ErrTypeNotRegistered), Tests.st0) /\
  (ErrTypeNotRegistered = ErrNotInvokable \/
   ErrTypeNotRegistered = ErrTypeNotRegistered).
Proof.
  split; [reflexivity|].
  apply (Invoke_error_results Tests.test_program NewInjector Tests.value_of
           [] [] ErrTypeNotRegistered Tests.st0 Tests.st0 eq_refl).
Defined.

(** X8: for a function that is not variadic (as every [VFunc] is), with
    more leading arguments than the function has parameters nothing is
    resolved, the call panics before the body is entered, and so does
    [Invoke], leaving the state as it was. *)
Theorem Invoke_too_many_arguments (P : Program) (i : Injector)
    (ins outs : list GoType) (code : option FuncId) (args : list Value)
    (st : State) :
  length ins < length args ->
  exists msg, Invoke P i (VFunc ins outs code) args st = (Panic msg, st).
Proof.
  intros Hlen. rewrite Invoke_func.
  rewrite drop_ge by lia. simpl. unfold Call, panic.
  destruct code as [c|]; [|eexists; reflexivity].
  rewrite bool_decide_eq_false_2 by lia. simpl. eexists. reflexivity.
Qed.

Lemma Invoke_too_many_arguments_witness :
  length [Tests.TInt; Tests.TInt] < length [VInt 1; VInt 2; VInt 3] /\
  exists msg,
    Invoke Tests.test_program NewInjector Tests.add [VInt 1; VInt 2; VInt 3]
      Tests.st0 = (Panic msg, Tests.st0).
Proof.
  assert (H : length [Tests.TInt; Tests.TInt] < length [VInt 1; VInt 2; VInt 3])
    by (simpl; lia).
  split; [exact H|].
  apply (Invoke_too_many_arguments Tests.test_program NewInjector
           [Tests.TInt; Tests.TInt] [Tests.TInt] (Some Tests.c_add)
           [VInt 1; VInt 2; VInt 3] Tests.st0 H).
Defined.

(** When every type has a singleton, resolving them runs nothing and
    gives releasers that do nothing. *)
Lemma resolves_singletons (P : Program) (i : Injector) (ts : list GoType)
    (st : State) :
  Forall (fun t => is_Some (singletons i !! Some t)) ts ->
  exists rs, resolves P i ts st rs st /\
             Forall (fun ir => ir.2 = NoopReleaser) rs.
Proof.
  induction 1 as [|t ts [v Hv] _ (rs & Hres & Hrs)].
  - exists []. split; constructor.
  - exists ((v, NoopReleaser) :: rs). split.
    + econstructor; [apply GetInstance_stored, Hv|exact Hres].
    + constructor; [reflexivity|exact Hrs].
Qed.

(** X9: when every remaining parameter type has a singleton, [Invoke]
    enters no factory and no [Close]: a singleton is never closed by
    [Invoke], also when it is an [io.Closer]. *)
Theorem Invoke_keeps_singletons_open (P : Program) (i : Injector)
    (ins outs : list GoType) (code : option FuncId) (args : list Value)
    (st : State) :
  Forall (fun t => is_Some (singletons i !! Some t)) (drop (length args) ins) ->
  exists tr,
    trace (snd (Invoke P i (VFunc ins outs code) args st)) = trace st ++ tr /\
    Forall (fun e => ~ is_factory_or_close e) tr.
Proof.
  intros Hall.
  destruct (resolves_singletons P i _ st Hall) as (rs & Hres & Hnoop).
  rewrite Invoke_func.
  rewrite (inject_resolves P i _ st rs st args [] Hres), app_nil_r.
  destruct (Call_trace_any P AtTarget (VFunc ins outs code) (args ++ map fst rs) st)
    as (trc & Ec & Fc).
  exists (trc ++ flat_map (release_events P) (rev (map snd rs))).
  split.
  - destruct (Call P AtTarget (VFunc ins outs code) (args ++ map fst rs) st)
      as [[results|msg] s2]; simpl in Ec;
      rewrite run_defers_trace, Ec, <- app_assoc; reflexivity.
  - apply Forall_app. split.
    + eapply Forall_impl; [|exact Fc]. intros e [c ->]. simpl. tauto.
    + assert (Hrev : Forall (fun r => r = NoopReleaser) (rev (map snd rs))).
      { apply Forall_forall. intros r Hr. apply in_rev, in_map_iff in Hr
          as ([v r'] & <- & Hin).
        rewrite Forall_forall in Hnoop. apply (Hnoop (v, r')), Hin. }
      induction Hrev as [|r l -> _ IH]; simpl; [constructor|].
      constructor; [simpl; tauto|exact IH].
Qed.

Lemma Invoke_keeps_singletons_open_witness :
  let kept := VPtr Tests.TClosable (Some 1) in
  let i := register_all [Singleton kept] NewInjector in
  let f := VFunc [TPtr Tests.TClosable] [] (Some Tests.c_nop) in
  Forall (fun t => is_Some (singletons i !! Some t))
    (drop (length (@nil Value)) [TPtr Tests.TClosable]) /\
  exists tr,
    trace (snd (Invoke Tests.test_program i f [] Tests.st0))
    = trace Tests.st0 ++ tr /\
    Forall (fun e => ~ is_factory_or_close e) tr.
Proof.
  assert (H : Forall (fun t => is_Some
                (singletons (register_all
                   [Singleton (VPtr Tests.TClosable (Some 1))] NewInjector)
                 !! Some t))
              (drop (length (@nil Value)) [TPtr Tests.TClosable])).
  { repeat constructor. eexists. reflexivity. }
  split; [exact H|].
  apply (Invoke_keeps_singletons_open Tests.test_program _
           [TPtr Tests.TClosable] [] (Some Tests.c_nop) [] Tests.st0 H).
Defined.

(** X10: when the parameters resolve and the function panics, [Invoke]
    panics as well: it recovers nothing.  The collected releasers are
    called all the same, each once and the last collected first, and the
    panic is the function's own unless a [Close] panics after it. *)
Theorem Invoke_function_panics (P : Program) (i : Injector)
    (ins outs : list GoType) (code : option FuncId) (args : list Value)
    (rs : list (Value * Releaser)) (msg : string) (st st1 st2 : State) :
  resolves P i (drop (length args) ins) st rs st1 ->
  Call P AtTarget (VFunc ins outs code) (args ++ map fst rs) st1
  = (Panic msg, st2) ->
  let r := Invoke P i (VFunc ins outs code) args st in
  (exists msg', fst r = Panic msg') /\
  trace (snd r) = trace st2 ++ flat_map (release_events P) (rev (map snd rs)) /\
  (fst (run_defers P (rev (map snd rs)) (Ret tt) st2) = Ret tt ->
   fst r = Panic msg).
Proof.
  intros Hres Hcall r. subst r.
  rewrite Invoke_func.
  rewrite (inject_resolves P i _ st rs st1 args [] Hres), app_nil_r, Hcall.
  split; [|split].
  - destruct (fst (run_defers P (rev (map snd rs))
                     (Panic msg : Outcome (list Value * option Error)) st2))
      as [x|m] eqn:Ho.
    + apply run_defers_Ret in Ho. discriminate.
    + exists m. reflexivity.
  - apply run_defers_trace.
  - intros Hq. apply run_defers_quiet, Hq.
Qed.

Lemma Invoke_function_panics_witness :
  let i := register_all [Transient Tests.closable_factory] NewInjector in
  let f := VFunc [TPtr Tests.TClosable] [] (Some Examples.c_panics) in
  let made := VPtr Tests.TClosable (Some 1) in
  let st1 := {| heap := [VBool false;
                         VStruct "closableObject" [VPtr (TNamed "bool") (Some 0)]];
                trace := [EvCall AtFactory Tests.c_closable_factory []] |} in
  let st2 := {| heap := heap st1;
                trace := trace st1 ++ [EvCall AtTarget Examples.c_panics [made]] |} in
  resolves Tests.test_program i (drop 0 [TPtr Tests.TClosable]) Tests.st0
    [(made, CloseReleaser made)] st1 /\
  Call Tests.test_program AtTarget f [made] st1 = (Panic "unreachable", st2) /\
  trace (snd (Invoke Tests.test_program i f [] Tests.st0))
  = trace st2 ++ [EvRelease (CloseReleaser made);
                  EvCall AtClose Tests.c_Close [made]].
Proof.
  assert (Hres : resolves Tests.test_program
            (register_all [Transient Tests.closable_factory] NewInjector)
            (drop 0 [TPtr Tests.TClosable]) Tests.st0
            [(VPtr Tests.TClosable (Some 1),
              CloseReleaser (VPtr Tests.TClosable (Some 1)))]
            {| heap := [VBool false;
                        VStruct "closableObject" [VPtr (TNamed "bool") (Some 0)]];
               trace := [EvCall AtFactory Tests.c_closable_factory []] |}).
  { eapply resolves_cons; [reflexivity|apply resolves_nil]. }
  split; [exact Hres|]. split; [reflexivity|].
  refine (proj1 (proj2 (Invoke_function_panics Tests.test_program _
            [TPtr Tests.TClosable] [] (Some Examples.c_panics) [] _
            "unreachable" Tests.st0 _ _ Hres eq_refl))).
Defined.

(** ** Permission assertions, in general *)

Section Assertions.
Import Permissions.

Lemma index_true (token : Token) (p : string) :
  index token p = true <-> token !! p = Some true.
Proof.
  unfold index. destruct (token !! p) as [[]|]; simpl; split; congruence.
Qed.

Lemma HasAny_true (permissions : list string) (token : Token) :
  HasAny permissions token = true <->
  exists p, p ∈ permissions /\ token !! p = Some true.
Proof.
  induction permissions as [|q ps IH]; simpl.
  - split; [discriminate|]. intros (p & Hp & _). inversion Hp.
  - destruct (index token q) eqn:Hq.
    + split; [|reflexivity]. intros _. exists q.
      split; [left|apply index_true, Hq].
    + rewrite IH. split.
      * intros (p & Hp & Ht). exists p. split; [right; exact Hp|exact Ht].
      * intros (p & Hp & Ht). exists p. split; [|exact Ht].
        inversion Hp; subst; [|assumption].
        apply index_true in Ht. congruence.
Qed.

Lemma HasAll_true (permissions : list string) (token : Token) :
  HasAll permissions token = true <->
  forall p, p ∈ permissions -> token !! p = Some true.
Proof.
  induction permissions as [|q ps IH]; simpl.
  - split; [|reflexivity]. intros _ p Hp. inversion Hp.
  - destruct (index token q) eqn:Hq; simpl.
    + rewrite IH. split.
      * intros H p Hp. inversion Hp; subst; [apply index_true, Hq|auto].
      * intros H p Hp. apply H. right. exact Hp.
    + split; [discriminate|]. intros H.
      assert (Ht : token !! q = Some true) by (apply H; left).
      apply index_true in Ht. congruence.
Qed.

(** X11: [HasAny] holds exactly when the token has one of the
    permissions, [HasAll] exactly when it has every one of them; a
    permission that is missing from the map or mapped to [false] is not
    had. *)
Theorem HasAny_HasAll_spec (permissions : list string) (token : Token) :
  (HasAny permissions token = true <->
   exists p, p ∈ permissions /\ token !! p = Some true) /\
  (HasAll permissions token = true <->
   forall p, p ∈ permissions -> token !! p = Some true).
Proof. split; [apply HasAny_true|apply HasAll_true]. Qed.

Lemma Or_true (assertions : list PermissionsAssertion) (token : Token) :
  Or assertions token = true <->
  exists a, a ∈ assertions /\ a token = true.
Proof.
  induction assertions as [|b bs IH]; simpl.
  - split; [discriminate|]. intros (a & Ha & _). inversion Ha.
  - destruct (b token) eqn:Hb.
    + split; [|reflexivity]. intros _. exists b. split; [left|exact Hb].
    + rewrite IH. split.
      * intros (a & Ha & Ht). exists a. split; [right; exact Ha|exact Ht].
      * intros (a & Ha & Ht). exists a. split; [|exact Ht].
        inversion Ha; subst; [congruence|assumption].
Qed.

Lemma And_true (assertions : list PermissionsAssertion) (token : Token) :
  And assertions token = true <->
  forall a, a ∈ assertions -> a token = true.
Proof.
  induction assertions as [|b bs IH]; simpl.
  - split; [|reflexivity]. intros _ a Ha. inversion Ha.
  - destruct (b token) eqn:Hb; simpl.
    + rewrite IH. split.
      * intros H a Ha. inversion Ha; subst; [exact Hb|auto].
      * intros H a Ha. apply H. right. exact Ha.
    + split; [discriminate|]. intros H.
      assert (Ht : b token = true) by (apply H; left). congruence.
Qed.

(** X12: [Or] holds exactly when one of the assertions holds, [And]
    exactly when every one of them holds. *)
Theorem Or_And_spec (assertions : list PermissionsAssertion) (token : Token) :
  (Or assertions token = true <->
   exists a, a ∈ assertions /\ a token = true) /\
  (And assertions token = true <->
   forall a, a ∈ assertions -> a token = true).
Proof. split; [apply Or_true|apply And_true]. Qed.

Lemma HasAll_app (ps qs : list string) (token : Token) :
  HasAll (ps ++ qs) token = HasAll ps token && HasAll qs token.
Proof.
  induction ps as [|p ps IH]; simpl; [reflexivity|].
  destruct (index token p); simpl; [exact IH|reflexivity].
Qed.

Lemma HasAny_app (ps qs : list string) (token : Token) :
  HasAny (ps ++ qs) token = HasAny ps token || HasAny qs token.
Proof.
  induction ps as [|p ps IH]; simpl; [reflexivity|].
  destruct (index token p); simpl; [reflexivity|exact IH].
Qed.

(** X13: the combinators flatten: a conjunction of [HasAll]s is the
    [HasAll] of all the permissions together, a disjunction of [HasAny]s
    the [HasAny] of all of them; and for one permission [HasAny] and
    [HasAll] agree. *)
Theorem assertions_flatten (groups : list (list string)) (p : string)
    (token : Token) :
  And (map HasAll groups) token = HasAll (concat groups) token /\
  Or (map HasAny groups) token = HasAny (concat groups) token /\
  HasAny [p] token = HasAll [p] token.
Proof.
  split; [|split].
  - induction groups as [|ps groups IH]; simpl; [reflexivity|].
    rewrite HasAll_app, IH. destruct (HasAll ps token); reflexivity.
  - induction groups as [|ps groups IH]; simpl; [reflexivity|].
    rewrite HasAny_app, IH. destruct (HasAny ps token); reflexivity.
  - simpl. destruct (index token p); reflexivity.
Qed.

(** X14: granting more never takes access away: [HasAny] and [HasAll]
    are monotone in the token, and so are [Or] and [And] of monotone
    assertions. *)
Theorem assertions_monotone (permissions : list string)
    (assertions : list PermissionsAssertion) :
  monotone (HasAny permissions) /\
  monotone (HasAll permissions) /\
  (Forall monotone assertions ->
   monotone (Or assertions) /\ monotone (And assertions)).
Proof.
  split; [|split].
  - intros t t' Hsub H.
    apply HasAny_true in H as (p & Hp & Ht). apply HasAny_true.
    exists p. auto.
  - intros t t' Hsub H.
    apply HasAll_true. intros p Hp. apply Hsub.
    revert p Hp. apply HasAll_true, H.
  - intros Hmono. rewrite Forall_forall in Hmono. split.
    + intros t t' Hsub H.
      apply Or_true in H as (a & Ha & Ht). apply Or_true.
      exists a. split; [exact Ha|].
      apply (Hmono a (proj1 (list_elem_of_In _ _) Ha) t t' Hsub Ht).
    + intros t t' Hsub H.
      apply And_true. intros a Ha.
      apply (Hmono a (proj1 (list_elem_of_In _ _) Ha) t t' Hsub).
      revert a Ha. apply And_true, H.
Qed.

End Assertions.

(** ** The middleware *)

Lemma tokenPermissions_lookup (permissions : list string)
    (m : Permissions.Token) (p : string) :
  fold_left (fun m p => <[p := true]> m) permissions m !! p
  = if bool_decide (p ∈ permissions) then Some true else m !! p.
Proof.
  revert m. induction permissions as [|q ps IH]; intros m.
  - case_bool_decide as H; [inversion H|reflexivity].
  - cbn [fold_left]. rewrite IH.
    case_bool_decide as Hps; case_bool_decide as Hqps; try reflexivity.
    + exfalso. apply Hqps. right. exact Hps.
    + inversion Hqps; subst; [apply lookup_insert_eq|contradiction].
    + apply lookup_insert_ne. intros ->. apply Hqps. left.
Qed.

(** X15: the map built from the claim holds exactly the listed
    permissions, each as [true], however often and in whatever order they
    are listed; nothing is ever entered as [false]. *)
Theorem tokenPermissions_spec (permissions : list string) (p : string) :
  (tokenPermissions permissions !! p = Some true <-> p ∈ permissions) /\
  tokenPermissions permissions !! p <> Some false.
Proof.
  unfold tokenPermissions. rewrite tokenPermissions_lookup.
  unfold Permissions.Token. rewrite lookup_empty.
  case_bool_decide as Hp; split; try discriminate; try tauto.
  split; [discriminate|contradiction].
Qed.

(** X16: with a bearer that parses, [JWT] hands over to the rest of the
    chain on a context where [Token] gives the parsed token, whatever the
    key held before; it writes no response and does not abort. *)
Theorem JWT_then_Token (JwtToken : Type)
    (jwt_Parse : string -> string -> string -> string -> option JwtToken)
    (issuer audience secret : string)
    (next : Handler JwtToken) (c : Context JwtToken) (token : JwtToken) :
  GetHeader c "Authorization" <> "" ->
  jwt_Parse (GetHeader c "Authorization") issuer audience secret = Some token ->
  let c' := Context_Set "token" (AnyToken token) c in
  JWT jwt_Parse issuer audience secret next c = next c' /\
  Token c' = Ret token /\
  aborted c' = aborted c /\ written c' = written c /\ Header c' = Header c.
Proof.
  intros Hb Hp c'. unfold JWT. rewrite bool_decide_eq_false_2 by exact Hb.
  rewrite Hp. split; [reflexivity|].
  unfold Token, c'. simpl. rewrite lookup_insert_eq. auto.
Qed.

(** X17: with a bearer that does not parse, [JWT] answers 401 with
    [{"error": "invalid token"}] and aborts; the rest of the chain does
    not run and no token is stored. *)
Theorem JWT_rejects (JwtToken : Type)
    (jwt_Parse : string -> string -> string -> string -> option JwtToken)
    (issuer audience secret : string)
    (next next' : Handler JwtToken) (c : Context JwtToken) :
  GetHeader c "Authorization" <> "" ->
  jwt_Parse (GetHeader c "Authorization") issuer audience secret = None ->
  let r := JWT jwt_Parse issuer audience secret next c in
  r = JWT jwt_Parse issuer audience secret next' c /\
  fst r = Ret tt /\
  aborted (snd r) = true /\
  written (snd r) = written c ++ [(401%Z, [("error", "invalid token")])] /\
  Keys (snd r) = Keys c.
Proof.
  intros Hb Hp r. subst r. unfold JWT.
  rewrite bool_decide_eq_false_2 by exact Hb. rewrite Hp. simpl. auto.
Qed.

(** X18: on a context that holds a token, [RequirePermissionsClaim]
    answers 401 when the claim cannot be read; otherwise it decides on the
    permissions the claim lists: with [HasAll] the chain goes on exactly
    when every required permission is listed, with [HasAny] exactly when
    one is, and the answer is 403 [{"error": "forbidden"}] with the chain
    aborted in the other case. *)
Theorem RequirePermissionsClaim_decides (JwtToken : Type)
    (Token_Get : JwtToken -> string -> option (list string)) (claim : string)
    (required : list string) (next : Handler JwtToken)
    (c : Context JwtToken) (token : JwtToken) :
  Keys c !! "token" = Some (AnyToken token) ->
  let unauthorized := (Ret tt, Abort (JSON 401 [("error", "invalid token")] c)) in
  let forbidden := (Ret tt, Abort (JSON 403 [("error", "forbidden")] c)) in
  let all := RequirePermissionsClaim Token_Get claim
               (Permissions.HasAll required) next c in
  let any := RequirePermissionsClaim Token_Get claim
               (Permissions.HasAny required) next c in
  (Token_Get token claim = None -> all = unauthorized /\ any = unauthorized) /\
  (forall permissions, Token_Get token claim = Some permissions ->
     ((forall p, p ∈ required -> p ∈ permissions) -> all = next c) /\
     ((exists p, p ∈ required /\ p ∉ permissions) -> all = forbidden) /\
     ((exists p, p ∈ required /\ p ∈ permissions) -> any = next c) /\
     ((forall p, p ∈ required -> p ∉ permissions) -> any = forbidden)).
Proof.
  intros Hk unauthorized forbidden all any.
  subst all any. unfold RequirePermissionsClaim. rewrite Hk.
  split.
  - intros ->. split; reflexivity.
  - intros permissions ->.
    assert (Hin : forall p, tokenPermissions permissions !! p = Some true
                            <-> p ∈ permissions).
    { intros p. unfold tokenPermissions. rewrite tokenPermissions_lookup.
      unfold Permissions.Token. rewrite lookup_empty.
      case_bool_decide; split; try tauto; discriminate. }
    split; [|split; [|split]].
    + intros Hall.
      assert (H : Permissions.HasAll required (tokenPermissions permissions) = true).
      { apply HasAll_true. intros p Hp. apply Hin, Hall, Hp. }
      rewrite H. reflexivity.
    + intros (p & Hp & Hout).
      destruct (Permissions.HasAll required (tokenPermissions permissions)) eqn:H;
        [|reflexivity].
      exfalso. apply Hout, Hin. clear Hout. revert p Hp. apply HasAll_true, H.
    + intros (p & Hp & Hlisted).
      assert (H : Permissions.HasAny required (tokenPermissions permissions) = true).
      { apply HasAny_true. exists p. split; [exact Hp|apply Hin, Hlisted]. }
      rewrite H. reflexivity.
    + intros Hnone.
      destruct (Permissions.HasAny required (tokenPermissions permissions)) eqn:H;
        [|reflexivity].
      apply HasAny_true in H as (p & Hp & Ht).
      exfalso. apply (Hnone p Hp), Hin, Ht.
Qed.

(** X19: a request without an [Authorization] header passes [JWT] with
    no token stored, so [RequirePermissions] behind it panics on its type
    assertion instead of answering: no response is written and the rest
    of the chain does not run.  [Token] panics on such a context as
    well. *)
Theorem RequirePermissions_unauthenticated (JwtToken : Type)
    (jwt_Parse : string -> string -> string -> string -> option JwtToken)
    (Token_Get : JwtToken -> string -> option (list string))
    (issuer audience secret : string)
    (assertion : Permissions.PermissionsAssertion)
    (next : Handler JwtToken) (c : Context JwtToken) :
  GetHeader c "Authorization" = "" ->
  Keys c !! "token" = None ->
  (exists msg,
     JWT jwt_Parse issuer audience secret
       (RequirePermissions Token_Get assertion next) c = (Panic msg, c)) /\
  (exists msg, Token c = Panic msg).
Proof.
  intros Hb Hk. unfold JWT, RequirePermissions, RequirePermissionsClaim, Token.
  rewrite Hb, Hk. simpl. split; eexists; reflexivity.
Qed.

Lemma JWT_then_Token_witness :
  let c := Examples.request (Some "good") in
  GetHeader c "Authorization" <> "" /\
  Examples.ex_Parse (GetHeader c "Authorization") "iss" "aud" "secret"
  = Some ["read"; "write"] /\
  Token (Context_Set "token" (AnyToken ["read"; "write"]) c)
  = Ret ["read"; "write"].
Proof.
  assert (H : GetHeader (Examples.request (Some "good")) "Authorization" <> "")
    by discriminate.
  split; [exact H|]. split; [reflexivity|].
  refine (proj1 (proj2 (JWT_then_Token (list string) Examples.ex_Parse
            "iss" "aud" "secret" Examples.ok
            (Examples.request (Some "good")) ["read"; "write"] H eq_refl))).
Defined.

Lemma JWT_rejects_witness :
  let c := Examples.request (Some "Bearer good") in
  GetHeader c "Authorization" <> "" /\
  Examples.ex_Parse (GetHeader c "Authorization") "iss" "aud" "secret" = None /\
  written (snd (JWT Examples.ex_Parse "iss" "aud" "secret" Examples.ok c))
  = [(401%Z, [("error", "invalid token")])].
Proof.
  assert (H : GetHeader (Examples.request (Some "Bearer good")) "Authorization"
              <> "") by discriminate.
  split; [exact H|]. split; [reflexivity|].
  refine (proj1 (proj2 (proj2 (proj2
            (JWT_rejects (list string) Examples.ex_Parse
               "iss" "aud" "secret" Examples.ok Examples.ok
               (Examples.request (Some "Bearer good")) H _))))).
  reflexivity.
Defined.

Lemma RequirePermissionsClaim_decides_witness :
  let c := Context_Set "token" (AnyToken ["read"; "write"])
             (Examples.request (Some "good")) in
  Keys c !! "token" = Some (AnyToken ["read"; "write"]) /\
  Examples.ex_Get ["read"; "write"] "permissions" = Some ["read"; "write"] /\
  RequirePermissionsClaim Examples.ex_Get "permissions"
    (Permissions.HasAll ["write"; "admin"]) Examples.ok c
  = (Ret tt, Abort (JSON 403 [("error", "forbidden")] c)).
Proof.
  split; [reflexivity|]. split; [reflexivity|].
  refine (proj1 (proj2 (proj2
    (RequirePermissionsClaim_decides (list string) Examples.ex_Get
       "permissions" ["write"; "admin"] Examples.ok
       (Context_Set "token" (AnyToken ["read"; "write"])
          (Examples.request (Some "good")))
       ["read"; "write"] eq_refl) ["read"; "write"] eq_refl)) _).
  exists "admin". split; [right; left|].
  intros H. inversion H as [|? ? ? H1]; subst.
  inversion H1 as [|? ? ? H2]; subst. inversion H2.
Defined.

Lemma RequirePermissions_unauthenticated_witness :
  let c := Examples.request None in
  GetHeader c "Authorization" = "" /\
  Keys c !! "token" = None /\
  exists msg,
    JWT Examples.ex_Parse "iss" "aud" "secret"
      (RequirePermissions Examples.ex_Get (Permissions.HasAny ["read"])
         Examples.ok) c = (Panic msg, c).
Proof.
  split; [reflexivity|]. split; [reflexivity|].
  refine (proj1 (RequirePermissions_unauthenticated (list string)
            Examples.ex_Parse Examples.ex_Get "iss" "aud" "secret"
            (Permissions.HasAny ["read"]) Examples.ok
            (Examples.request None) eq_refl eq_refl)).
Defined.

(** ** The router's handlers *)

Lemma verb_methods_serve (P : Program) (r : Router) (path : string)
    (handler : Value) m :
  List.In m verb_methods ->
  serve (m P r path handler) = adapter P r handler.
Proof.
  unfold verb_methods. simpl.
  intros [<-|[<-|[<-|[<-|[<-|[<-|[<-|[]]]]]]]]; reflexivity.
Qed.



(** X21: the verb methods take any handler.  For each of the seven
    verbs, with a handler that is not a function (and not nil) the
    closure does nothing on a request: the [ErrNotInvokable] of [Invoke]
    is dropped and the state is as it was. *)
Theorem route_handler_not_invokable (P : Program) (r : Router)
    (m : Program -> Router -> string -> Value -> Route) (path : string)
    (handler : Value) (f : GoType) (c : Value) (st : State) :
  List.In m verb_methods ->
  TypeOf handler = Some f ->
  kind f <> Func ->
  serve (m P r path handler) c st = (Ret tt, st).
Proof.
  intros Hm Hf Hk. rewrite (verb_methods_serve P r path _ m Hm).
  unfold adapter, bind, Invoke. rewrite Hf.
  rewrite bool_decide_eq_false_2 by exact Hk. reflexivity.
Qed.

Lemma route_handler_not_invokable_witness :
  let r := {| g := VPtr (TNamed "gin.Engine") (Some 0); di := NewInjector |} in
  List.In POST verb_methods /\
  TypeOf (VStr "test") = Some Tests.TString /\
  kind Tests.TString <> Func /\
  serve (POST Tests.test_program r "/post" (VStr "test")) Examples.context Tests.st0
  = (Ret tt, Tests.st0).
Proof.
  assert (Hm : List.In POST verb_methods) by (right; left; reflexivity).
  split; [exact Hm|]. split; [reflexivity|]. split; [discriminate|].
  apply (route_handler_not_invokable Tests.test_program _ POST "/post"
           (VStr "test") Tests.TString Examples.context Tests.st0 Hm eq_refl).
  discriminate.
Defined.

(** X22: for each of the seven verbs, when a parameter of the handler
    after the context is not registered, the closure returns without
    having entered the handler: the resolution error is dropped.  What
    has run is this and no more: the factories of the parameters before,
    then the releasers of their instances, each once and the last
    collected first, the [Close] bodies among them acting on the heap. *)
Theorem route_unresolved_dependency (P : Program) (r : Router)
    (m : Program -> Router -> string -> Value -> Route) (path : string)
    (ins outs : list GoType) (code : option FuncId) (c : Value)
    (pre post : list GoType) (t : GoType) (rs : list (Value * Releaser))
    (st st1 : State) :
  List.In m verb_methods ->
  drop 1 ins = pre ++ t :: post ->
  resolves P (di r) pre st rs st1 ->
  typeIsRegistered (di r) (Some t) = false ->
  fst (run_defers P (rev (map snd rs)) (Ret tt) st1) = Ret tt ->
  let route := m P r path (VFunc ins outs code) in
  fst (serve route c st) = Ret tt /\
  trace (snd (serve route c st))
  = trace st1 ++ flat_map (release_events P) (rev (map snd rs)) /\
  heap (snd (serve route c st))
  = closed_heap P (rev (map snd rs)) (heap st1) /\
  exists tr, trace (snd (serve route c st)) = trace st ++ tr /\
             Forall (fun e => ~ is_target_call e) tr.
Proof.
  intros Hm Hdrop Hres Hreg Hq route. subst route.
  rewrite (verb_methods_serve P r path _ m Hm).
  unfold adapter, bind. rewrite Invoke_func. simpl length. rewrite Hdrop.
  rewrite (inject_unresolved P (di r) pre t post st rs st1 [c] [] Hres Hreg).
  rewrite app_nil_r.
  pose proof (run_defers_quiet P (rev (map snd rs))
                (Ret ([] : list Value, Some ErrTypeNotRegistered)) st1 Hq) as Ho.
  pose proof (run_defers_trace P (rev (map snd rs))
                (Ret ([] : list Value, Some ErrTypeNotRegistered)) st1) as Ht.
  pose proof (run_defers_heap P (rev (map snd rs))
                (Ret ([] : list Value, Some ErrTypeNotRegistered)) st1) as Hh.
  destruct (run_defers P (rev (map snd rs))
              (Ret ([], Some ErrTypeNotRegistered)) st1) as [o s].
  simpl in Ho, Ht, Hh. subst o. simpl. split; [reflexivity|].
  split; [exact Ht|]. split; [exact Hh|].
  destruct (resolves_trace P (di r) pre st rs st1 Hres) as (tr1 & E1 & F1).
  exists (tr1 ++ flat_map (release_events P) (rev (map snd rs))).
  rewrite Ht, E1, <- app_assoc. split; [reflexivity|].
  apply Forall_app. split.
  - eapply Forall_impl; [|exact F1]. intros [[] c' [|a l]|] H; simpl in *; tauto.
  - eapply Forall_impl; [|apply release_events_shape]. simpl. tauto.
Qed.

Lemma route_unresolved_dependency_witness :
  let i := register_all [Transient Tests.closable_factory] NewInjector in
  let r := {| g := VPtr (TNamed "gin.Engine") (Some 0); di := i |} in
  let ins := [Examples.TContext; TPtr Tests.TClosable; Tests.TSimple] in
  let made := VPtr Tests.TClosable (Some 1) in
  let st1 := {| heap := [VBool false;
                         VStruct "closableObject" [VPtr (TNamed "bool") (Some 0)]];
                trace := [EvCall AtFactory Tests.c_closable_factory []] |} in
  let served := serve (HEAD Tests.test_program r "/head"
                         (VFunc ins [] (Some Tests.c_nop)))
                  Examples.context Tests.st0 in
  List.In HEAD verb_methods /\
  drop 1 ins = [TPtr Tests.TClosable] ++ Tests.TSimple :: [] /\
  resolves Tests.test_program i [TPtr Tests.TClosable] Tests.st0
    [(made, CloseReleaser made)] st1 /\
  typeIsRegistered i (Some Tests.TSimple) = false /\
  fst (run_defers Tests.test_program [CloseReleaser made] (Ret tt) st1) = Ret tt /\
  fst served = Ret tt /\
  trace (snd served)
  = trace st1 ++ flat_map (release_events Tests.test_program)
                   (rev [CloseReleaser made]) /\
  heap (snd served)
  = closed_heap Tests.test_program (rev [CloseReleaser made]) (heap st1) /\
  heap (snd served) !! Tests.closed_cell = Some (VBool true).
Proof.
  assert (Hm : List.In HEAD verb_methods) by (do 6 right; left; reflexivity).
  assert (Hres : resolves Tests.test_program
            (register_all [Transient Tests.closable_factory] NewInjector)
            [TPtr Tests.TClosable] Tests.st0
            [(VPtr Tests.TClosable (Some 1),
              CloseReleaser (VPtr Tests.TClosable (Some 1)))]
            {| heap := [VBool false;
                        VStruct "closableObject" [VPtr (TNamed "bool") (Some 0)]];
               trace := [EvCall AtFactory Tests.c_closable_factory []] |}).
  { eapply resolves_cons; [reflexivity|apply resolves_nil]. }
  split; [exact Hm|]. split; [reflexivity|]. split; [exact Hres|].
  split; [reflexivity|]. split; [reflexivity|].
  destruct (route_unresolved_dependency Tests.test_program
              {| g := VPtr (TNamed "gin.Engine") (Some 0);
                 di := register_all [Transient Tests.closable_factory]
                         NewInjector |}
              HEAD "/head"
              [Examples.TContext; TPtr Tests.TClosable; Tests.TSimple] []
              (Some Tests.c_nop) Examples.context
              [TPtr Tests.TClosable] [] Tests.TSimple _
              Tests.st0 _ Hm eq_refl Hres eq_refl eq_refl)
    as (Hret & Htrace & Hheap & _).
  split; [exact Hret|]. split; [exact Htrace|]. split; [exact Hheap|].
  reflexivity.
Defined.
